(** * Pylustrator: linked widgets, colour catalogue and colour swap

    A shallow embedding of the logic of
    - [pylustrator/QLinkableWidgets.py] ([Linkable], [FreeNumberInput],
      [TextWidget], [ComboWidget], [CheckWidget]),
    - [pylustrator/QtShortCuts.py] ([QDragableColor]),
    - [pylustrator/QtGui.py] ([figure], [addChildren], [figureListColors],
      [figureSwapColor], [ColorChooserWidget]).

    Python objects live in explicit stores, exceptions are values of the
    result type [res], and signals of the GUI toolkit are either run
    (when the slot is part of the modelled classes) or logged. *)

From Equations Require Import Equations.
From stdpp Require Import gmap strings list.

Open Scope string_scope.
Open Scope list_scope.

(** ** Python runtime: exceptions and strings *)

Module Py.

(** The exception classes the sources catch or let escape. *)
Inductive exn : Type :=
| ValueError
| TypeError
| AttributeError
| KeyError
| IndexError
| OSError.

#[global] Instance exn_eq_dec : EqDecision exn.
Proof. solve_decision. Defined.

(** Outcome of a call: a value or a raised exception. *)
Inductive res (A : Type) : Type :=
| Ok (a : A)
| Raise (e : exn).
Arguments Ok {A} a.
Arguments Raise {A} e.

Definition bind {A B : Type} (m : res A) (k : A -> res B) : res B :=
  match m with
  | Ok a => k a
  | Raise e => Raise e
  end.

#[global] Instance res_bind : MBind res := fun A B k m => bind m k.
#[global] Instance res_ret : MRet res := @Ok.

Definition is_ok {A : Type} (m : res A) : bool :=
  match m with Ok _ => true | Raise _ => false end.

(** Code that mutates objects: the mutations made before an exception
    stay, so the state is returned next to the outcome. *)
Definition M (S A : Type) : Type := S -> S * res A.

#[global] Instance M_ret {S : Type} : MRet (M S) := fun A a s => (s, Ok a).
#[global] Instance M_bind {S : Type} : MBind (M S) := fun A B k m s =>
  match m s with
  | (s', Ok a) => k a s'
  | (s', Raise e) => (s', Raise e)
  end.

Definition get {S : Type} : M S S := fun s => (s, Ok s).
Definition gets {S A : Type} (f : S -> A) : M S A := fun s => (s, Ok (f s)).
Definition modify {S : Type} (f : S -> S) : M S unit := fun s => (f s, Ok tt).
Definition raise {S A : Type} (e : exn) : M S A := fun s => (s, Raise e).
Definition lift {S A : Type} (r : res A) : M S A := fun s => (s, r).

(** [for x in xs: body(x)] *)
Fixpoint for_each {S A : Type} (body : A -> M S unit) (xs : list A) : M S unit :=
  match xs with
  | [] => mret tt
  | x :: xs' => body x ;; for_each body xs'
  end.

(** [try: body finally: fin] *)
Definition try_finally {S A : Type} (body : M S A) (fin : S -> S) : M S A :=
  fun s => let '(s', r) := body s in (fin s', r).

(** [try: body except exc: handler] *)
Definition try_except {S A : Type} (body : M S A) (exc : exn) (handler : M S A)
  : M S A :=
  fun s =>
    match body s with
    | (s', Raise e) => if decide (e = exc) then handler s' else (s', Raise e)
    | r => r
    end.

(** The line feed character. *)
Definition LF : Ascii.ascii := Ascii.ascii_of_nat 10.

(** The double quote character, for the serialised commands. *)
Definition dquote : string := String (Ascii.ascii_of_nat 34) EmptyString.

(** [s[n:]] *)
Fixpoint string_drop (n : nat) (s : string) : string :=
  match n, s with
  | S n', String _ s' => string_drop n' s'
  | _, _ => s
  end.

Lemma string_drop_length n s :
  String.length (string_drop n s) <= String.length s.
Proof.
  revert s; induction n as [|n IH]; intros [|c s]; simpl; try lia.
  specialize (IH s). lia.
Qed.

(** [s.replace(old, new)] for a non-empty [old]: occurrences are taken
    from the left and do not overlap. *)
Equations? replace (old new s : string) : string by wf (String.length s) lt :=
  replace old new EmptyString := EmptyString;
  replace old new (String c s') with String.prefix old (String c s') => {
    | true := new +:+ replace old new (string_drop (String.length old - 1) s');
    | false := String c (replace old new s') }.
Proof.
  all: simpl; pose proof (string_drop_length (String.length old - 1) s'); lia.
Qed.

(** [s.split(sep)] for a separator of one character. *)
Fixpoint split_on (sep : Ascii.ascii) (s : string) : list string :=
  match s with
  | EmptyString => [EmptyString]
  | String c s' =>
      if Ascii.eqb c sep then EmptyString :: split_on sep s'
      else match split_on sep s' with
           | [] => [String c EmptyString]
           | l :: ls => String c l :: ls
           end
  end.

(** [sep.join(l)] *)
Fixpoint join (sep : string) (l : list string) : string :=
  match l with
  | [] => EmptyString
  | [x] => x
  | x :: l' => x +:+ sep +:+ join sep l'
  end.

(** [s.strip()]: which characters count as white space is decided by
    the Unicode tables of the interpreter and not by the sources, so
    the builtin is the operation of an interface. *)
Class Builtins : Type := {
  strip : string -> string
}.


End Py.

Import Py.

(** ** The GUI toolkit as the sources use it *)

Module Qt.

(** What the text inputs of the toolkit hold after [setText(text)].
    A [QTextEdit] takes a text that looks like markup for rich text,
    and [toPlainText()] then returns the text without the markup; a
    [QLineEdit] keeps no more than [maxLength()] characters. Neither
    is defined in the sources. *)
Class Toolkit : Type := {
  (** [QTextEdit]: [toPlainText()] after [setText(text)] *)
  text_edit_plain : string -> string;
  (** [QLineEdit]: [text()] after [setText(text)] *)
  line_edit_text : string -> string
}.

End Qt.

Import Qt.

(** ** [TextWidget]: a labelled text input *)

Module TextWidget.

Definition newline : string := String LF EmptyString.
Definition backslash : Ascii.ascii := Ascii.ascii_of_nat 92.
Definition letter_n : Ascii.ascii := Ascii.ascii_of_nat 110.
Definition backslash_n : string := String backslash (String letter_n EmptyString).

(** The attributes of a [TextWidget] that [setText] and [text] touch.
    [input1] is the text held by the toolkit's line or text edit;
    [emitted] counts the [editingFinished] emissions. *)
Record t : Type := mk {
  noSignal : bool;
  last_text : option string;
  multiline : bool;
  input1 : string;
  emitted : nat
}.

Section WithToolkit.
Context `{Toolkit}.

(** [self.input1.text()] after [self.input1.setText(text)]: the input
    is a [QTextEdit] for a multi-line widget ([input1.text] is its
    [toPlainText]) and a [QLineEdit] otherwise. *)
Definition input1_holds (multi : bool) (text : string) : string :=
  if multi then text_edit_plain text else line_edit_text text.

(** [TextWidget.setText(text, signal=False)] *)
Definition setText (w : t) (text0 : string) (signal : bool) : t :=
  let text1 := replace newline backslash_n text0 in
  {| noSignal := false;
     last_text := Some text1;
     multiline := multiline w;
     input1 := input1_holds (multiline w) text1;
     emitted := if signal then S (emitted w) else emitted w |}.

End WithToolkit.

(** [TextWidget.text()] *)
Definition text (w : t) : string :=
  replace backslash_n newline (input1 w).

(** *** The escaping, as the claim C10 words it

    These two functions are not taken from the code; the properties
    compare the code with them. [escape] writes a backslash (92) and
    the letter n (110) for each line feed (10); [unescape] reads the
    text from the left and writes a line feed for each backslash that
    is followed by the letter n. *)
Fixpoint escape (s : string) : string :=
  match s with
  | EmptyString => EmptyString
  | String c s' =>
      if (Ascii.nat_of_ascii c =? 10)%nat
      then String (Ascii.ascii_of_nat 92)
             (String (Ascii.ascii_of_nat 110) (escape s'))
      else String c (escape s')
  end.


End TextWidget.

(** ** [FreeNumberInput]: a line edit holding a number *)

Module FreeNumberInput.

Section Value.

(** Python floats and the builtin [float(str)] are not part of the
    sources; the builtin is a parameter that returns a float or raises. *)
Variable F : Type.
Variable float : string -> res F.

(** [FreeNumberInput.value()] on a field holding [text]; the result
    [Ok None] is Python's [None]. Only [ValueError] is caught. *)
Definition value (text : string) : res (option F) :=
  match float text with
  | Ok f => Ok (Some f)
  | Raise ValueError =>
      match float (replace "," "." text) with
      | Ok f => Ok (Some f)
      | Raise ValueError => Ok None
      | Raise e => Raise e
      end
  | Raise e => Raise e
  end.

End Value.

End FreeNumberInput.

(** ** The plotting library as the sources use it *)

Module Mpl.

(** Colours, colormaps and the functions of the plotting library that
    [QtGui.py] calls. None of them is defined in the sources, so they
    are the operations of an interface. *)
Class Interface : Type := {
  (** one colour as a getter yields it: a [str], an RGBA sequence, or a
      colour that remembers its colormap *)
  color : Type;
  (** colormap objects, compared as dictionary keys and with [in] *)
  cmap : Type;
  cmap_eq_dec :: EqDecision cmap;
  (** the position of a colour in its colormap ([color.value]) *)
  val : Type;
  (** the state of the colormaps that [set_color] mutates *)
  cmstate : Type;
  (** [mpl.colors.to_hex(color)] *)
  to_hex : color -> res string;
  (** [mpl.colors.to_rgba(color)[3] == 0] *)
  alpha_zero : color -> bool;
  (** [len(colors) == 0] for a value that is not a list of colours *)
  len_zero : color -> bool;
  (** [(color.cmap, color.value)], [None] when one attribute is missing *)
  cmap_of : color -> option (cmap * val);
  (** the colour that a [str] denotes *)
  of_str : string -> color;
  (** [cmap.get_color()], [None] when the colormap has no such method *)
  cm_get_color : cmstate -> cmap -> option (list color);
  (** whether the colormap has a [set_color] method *)
  cm_has_set_color : cmap -> bool;
  (** [cmap.set_color(new_color, index)]; the index is what the
      catalogue entry stores as its last field *)
  cm_set_color : cmap -> string -> nat + val -> cmstate -> cmstate;
  (** [cmap(value)] *)
  cm_call : cmstate -> cmap -> val -> color;
  (** [cmap(0)] *)
  cm_call0 : cmstate -> cmap -> color;
  (** [cmap.name] *)
  cm_name : cmap -> string;
  (** [str(value)] *)
  val_str : val -> string;
  (** [plt.colormaps()] *)
  colormaps : list string;
  (** [plt.get_cmap(name)] *)
  get_cmap : string -> cmap;
  (** [QDragableColor.getBackground()] for the colour string of the
      widget: the style-sheet gradient over ten positions of the
      colormap of that name, the empty string when there is none *)
  cm_gradient : string -> string
}.

(** The classes [addChildren] tells apart with [isinstance]. *)
Inductive akind : Type := Text | XTick | YTick | Other.

#[global] Instance akind_eq_dec : EqDecision akind.
Proof. solve_decision. Defined.

(** An artist object: its identity and the attributes that the walk
    reads and no function here writes. *)
Record ainfo : Type := mk_ainfo {
  a_id : nat;
  a_kind : akind;
  a_text : string;      (* [get_text()] of a [Text] *)
  a_no_save : bool      (* [getattr(artist, "_no_save", False)] *)
}.

#[global] Instance ainfo_eq_dec : EqDecision ainfo.
Proof. solve_decision. Defined.

(** The artist tree: an artist with the list [get_children()] returns. *)
#[warnings="-register-all"]
Inductive artist : Type :=
| Artist (info : ainfo) (children : list artist).

Definition info_of (a : artist) : ainfo := let 'Artist i _ := a in i.
Definition get_children (a : artist) : list artist := let 'Artist _ cs := a in cs.

(** What [get_<colour type>()] returns. *)
Inductive getter_value `{Interface} : Type :=
| GNone                       (* [None] *)
| GOne (c : color)            (* one colour, not a list of colours *)
| GMany (cs : list color).    (* a [list] or an array of colours *)

End Mpl.

Import Mpl.

(** ** The colour catalogue of a figure and the colour swap ([QtGui.py]) *)

Module ColorGraph.

Section WithMpl.
Context `{Interface}.

(** A key of [figure.color_artists]: a [str] (the hex notation of a
    colour), or a colormap object for colours of a colormap without
    [get_color]. *)
Inductive key : Type :=
| KStr (h : string)
| KCmap (c : cmap).

#[global] Instance key_eq_dec : EqDecision key.
Proof. solve_decision. Defined.

(** The last three fields of an entry that belongs to a colormap. *)
Record cm_link : Type := mk_link {
  l_value : val;
  l_cmap : cmap;
  l_index : nat + val
}.

(** An entry [[color_type_name, artist, value, cmap, index]]; the last
    three fields are [None, None, None] for a colour of its own. *)
Record entry : Type := mk_entry {
  e_type : string;
  e_artist : ainfo;
  e_link : option cm_link
}.

(** The dictionary keeps the order in which its keys were inserted. *)
Definition catalog : Type := list (key * list entry).

Definition cat_keys (cat : catalog) : list key := cat.*1.

(** [d[k]], [None] for a [KeyError] *)
Fixpoint cat_lookup (k : key) (cat : catalog) : option (list entry) :=
  match cat with
  | [] => None
  | (k', es) :: cat' => if decide (k' = k) then Some es else cat_lookup k cat'
  end.

(** [if k not in d: d[k] = []] followed by [d[k].append(e)] *)
Definition cat_append (k : key) (e : entry) (cat : catalog) : catalog :=
  if decide (k ∈ cat_keys cat)
  then (fun kv : key * list entry =>
          if decide (kv.1 = k) then (kv.1, kv.2 ++ [e]) else kv) <$> cat
  else cat ++ [(k, [e])].

(** The figure and what hangs on it: the values the colour getters
    return, the colormaps, the [color_artists] attribute and the calls
    [change_tracker.addChange(artist, command)] received so far. *)
Record fstate : Type := mk_fstate {
  props : gmap (nat * string) getter_value;
  cms : cmstate;
  color_artists : option catalog;
  changes : list (ainfo * string)
}.

Definition color_type_names : list string :=
  ["edgecolor"; "facecolor"; "color"; "markeredgecolor"; "markerfacecolor"].

Definition black : string := "#000000".
Definition white : string := "#ffffff".

(** [getattr(artist, "get_" + color_type_name, lambda: None)()] *)
Definition get_colors (st : fstate) (a : ainfo) (color_type_name : string)
  : getter_value :=
  default GNone (props st !! (a_id a, color_type_name)).

(** [getattr(artist, "set_" + color_type_name)(c)]: afterwards the
    getter of the same name returns [c]. *)
Definition set_color (a : ainfo) (color_type_name : string) (c : color)
  (st : fstate) : fstate :=
  {| props := <[(a_id a, color_type_name) := GOne c]> (props st);
     cms := cms st;
     color_artists := color_artists st;
     changes := changes st |}.

(** [artist.figure.change_tracker.addChange(artist, command)] *)
Definition addChange (a : ainfo) (command : string) (st : fstate) : fstate :=
  {| props := props st;
     cms := cms st;
     color_artists := color_artists st;
     changes := changes st ++ [(a, command)] |}.

(** The colours to iterate over, [None] for [continue]. *)
Definition colors_list (g : getter_value) : option (list color) :=
  match g with
  | GNone => None
  | GOne c => if len_zero c then None else Some [c]
  | GMany [] => None
  | GMany cs => Some cs
  end.

(** The loop over [enumerate(cmap.get_color())]. *)
Fixpoint add_cmap_colors (color_type_name : string) (a : ainfo) (value : val)
  (cm : cmap) (index : nat) (cols : list color) : M catalog unit :=
  match cols with
  | [] => mret tt
  | col :: cols' =>
      h ← lift (to_hex col);
      modify (cat_append (KStr h)
                (mk_entry color_type_name a (Some (mk_link value cm (inl index)))));;
      add_cmap_colors color_type_name a value cm (S index) cols'
  end.

(** The body of [for color in colors]. *)
Definition add_color (st : fstate) (color_type_name : string) (a : ainfo)
  (c : color) : M catalog unit :=
  match to_hex c with
  | Raise ValueError => mret tt
  | Raise e => raise e
  | Ok h =>
      if decide (h = black ∨ h = white) then mret tt
      else
        match cmap_of c with
        | Some (cm, value) =>
            match cm_get_color (cms st) cm with
            | Some cols => add_cmap_colors color_type_name a value cm 0 cols
            | None =>
                modify (cat_append (KCmap cm)
                          (mk_entry color_type_name a
                             (Some (mk_link value cm (inr value)))))
            end
        | None =>
            if alpha_zero c then mret tt
            else modify (cat_append (KStr h)
                           (mk_entry color_type_name a None))
        end
  end.

(** The body of [for color_type_name in [...]]. *)
Definition add_color_type (st : fstate) (a : ainfo) (color_type_name : string)
  : M catalog unit :=
  match colors_list (get_colors st a color_type_name) with
  | None => mret tt
  | Some cs => for_each (add_color st color_type_name a) cs
  end.

Definition add_artist_colors (st : fstate) (a : ainfo) : M catalog unit :=
  for_each (add_color_type st a) color_type_names.

(** Whether the walk leaves the artist out: an empty text, or a helper
    object flagged [_no_save]. *)
Definition skipped (a : ainfo) : bool :=
  bool_decide (a_kind a = Text ∧ a_text a = "") || a_no_save a.

(** Whether the walk goes on below the artist: not for texts and ticks. *)
Definition descends (a : ainfo) : bool :=
  bool_decide (a_kind a ≠ Text ∧ a_kind a ≠ XTick ∧ a_kind a ≠ YTick).

(** [addChildren(color_artists, parent)]; the dictionary is the state. *)
Fixpoint addChildren (st : fstate) (parent : artist) {struct parent}
  : M catalog unit :=
  match parent with
  | Artist _ children =>
      (fix loop (cs : list artist) : M catalog unit :=
         match cs with
         | [] => mret tt
         | child :: cs' =>
             (if skipped (info_of child) then mret tt
              else
                (if descends (info_of child) then addChildren st child
                 else mret tt);;
                add_artist_colors st (info_of child));;
             loop cs'
         end) children
  end.

(** The work of [addChildren] for one child. *)
Definition visit (st : fstate) (child : artist) : M catalog unit :=
  if skipped (info_of child) then mret tt
  else
    (if descends (info_of child) then addChildren st child else mret tt);;
    add_artist_colors st (info_of child).

(** The artists the walk below [parent] comes to: every child that is
    not left out, and, below a child that is neither a text nor a
    tick, the artists the walk below that child comes to. *)
Inductive reached : artist -> ainfo -> Prop :=
| reached_child parent child :
    child ∈ get_children parent ->
    skipped (info_of child) = false ->
    reached parent (info_of child)
| reached_below parent child a :
    child ∈ get_children parent ->
    skipped (info_of child) = false ->
    descends (info_of child) = true ->
    reached child a ->
    reached parent a.

(** The artists at most [n] levels below the children of [parent],
    whatever their kind. *)
Fixpoint within (n : nat) (parent : artist) : list ainfo :=
  match parent with
  | Artist _ children =>
      flat_map
        (fun child =>
           info_of child ::
           match n with
           | 0 => []
           | S n' => within n' child
           end)
        children
  end.

(** [e] is in the list that the dictionary holds for [k]. *)
Definition listed (cat : catalog) (k : key) (e : entry) : Prop :=
  exists es, cat_lookup k cat = Some es /\ e ∈ es.

(** The colours the walk iterates over for an artist and a colour type. *)
Definition colors_of (st : fstate) (a : ainfo) (color_type_name : string)
  : list color :=
  default [] (colors_list (get_colors st a color_type_name)).

(** [c] is a colour of its own (no colormap) that the walk lists under
    the hex string [h]: neither black nor white, and not transparent. *)
Definition plain_color (c : color) (h : string) : Prop :=
  to_hex c = Ok h /\ h <> black /\ h <> white
  /\ cmap_of c = None /\ alpha_zero c = false.

(** [figureListColors(figure)] *)
Definition figureListColors (figure : artist) : M fstate unit :=
  fun st =>
    let '(cat, r) := addChildren st figure [] in
    ({| props := props st; cms := cms st;
        color_artists := Some cat; changes := changes st |}, r).

Definition with_cms (c : cmstate) (st : fstate) : fstate :=
  {| props := props st; cms := c;
     color_artists := color_artists st; changes := changes st |}.

(** The command [.set_<type>("<new_color>")]. *)
Definition set_command (color_type_name new_color : string) : string :=
  ".set_" +:+ color_type_name +:+ "(" +:+ dquote +:+ new_color +:+ dquote +:+ ")".

(** The command [.set_<type>(plt.get_cmap("<name>")(<value>))]. *)
Definition set_cmap_command (color_type_name name value : string) : string :=
  ".set_" +:+ color_type_name +:+ "(plt.get_cmap(" +:+ dquote +:+ name
    +:+ dquote +:+ ")(" +:+ value +:+ "))".

(** Setter call and registration of the change, as each branch does. *)
Definition apply_color (a : ainfo) (color_type_name : string) (c : color)
  (command : string) (st : fstate) : fstate :=
  addChange a command (set_color a color_type_name c st).

(** The body of [for data in figure.color_artists[color_base]]; the
    list [changed_cmaps] is carried along with the figure. *)
Definition swap_entry (new_color : string) (data : entry)
  (acc : list cmap * fstate) : list cmap * fstate :=
  let '(changed_cmaps, st) := acc in
  let t := e_type data in
  let a := e_artist data in
  match e_link data with
  | Some l =>
      let cm := l_cmap l in
      let '(changed_cmaps1, st1) :=
        if decide (cm ∈ changed_cmaps) then (changed_cmaps, st)
        else (changed_cmaps ++ [cm],
              if cm_has_set_color cm
              then with_cms (cm_set_color cm new_color (l_index l) (cms st)) st
              else st) in
      if cm_has_set_color cm then
        (changed_cmaps1,
         apply_color a t (cm_call (cms st1) cm (l_value l))
           (set_cmap_command t (cm_name cm) (val_str (l_value l))) st1)
      else if decide (new_color ∈ colormaps) then
        let cm' := get_cmap new_color in
        (changed_cmaps1,
         apply_color a t (cm_call (cms st1) cm' (l_value l))
           (set_cmap_command t (cm_name cm') (val_str (l_value l))) st1)
      else
        (changed_cmaps1,
         apply_color a t (of_str new_color) (set_command t new_color) st1)
  | None =>
      if decide (new_color ∈ colormaps) then
        let cm' := get_cmap new_color in
        (changed_cmaps,
         apply_color a t (cm_call0 (cms st) cm')
           (set_cmap_command t (cm_name cm') "0") st)
      else
        (changed_cmaps,
         apply_color a t (of_str new_color) (set_command t new_color) st)
  end.

Definition swap_entries (new_color : string) (entries : list entry)
  (st : fstate) : fstate :=
  (foldl (fun acc data => swap_entry new_color data acc) ([], st) entries).2.

(** [figureSwapColor(figure, new_color, color_base)] *)
Definition figureSwapColor (figure : artist) (new_color : string)
  (color_base : key) : M fstate unit :=
  cat0 ← gets color_artists;
  (if cat0 is None then figureListColors figure else mret tt);;
  cat ← gets color_artists;
  match cat ≫= cat_lookup color_base with
  | None => raise KeyError
  | Some entries => modify (swap_entries new_color entries)
  end.


(** *** The swap, as the amended claim C3 words it

    The definitions below follow the words of the claim, not the code,
    and are compared with [figureSwapColor] in the properties. *)

(** The catalogue is computed first when the figure has none. *)
Definition with_catalogue (figure : artist) : M fstate unit :=
  fun st =>
    match color_artists st with
    | None => figureListColors figure st
    | Some _ => (st, Ok tt)
    end.







End WithMpl.

End ColorGraph.

(** ** A small instance of the plotting library, for the examples

    Strings are colours by the usual names and the [#rrggbb] notation.
    A colormap is either one of the library's named colormaps, or an
    editable colormap ([get_color] / [set_color]) made of a list of
    colours; a colour drawn from a colormap remembers the colormap and
    the position it was drawn at. Positions are natural numbers. *)

Module Toy.

Inductive tcmap : Type :=
| Named (name : string)        (* a colormap of the library *)
| Editable (id : nat).         (* a colormap with [get_color] and [set_color] *)

#[global] Instance tcmap_eq_dec : EqDecision tcmap.
Proof. solve_decision. Defined.

Inductive tcolor : Type :=
| Str (s : string)                             (* a [str] *)
| Drawn (hex : string) (cm : tcmap) (value : nat).   (* [cmap(value)] *)

Definition is_hex_digit (c : Ascii.ascii) : bool :=
  let n := Ascii.nat_of_ascii c in
  ((48 <=? n)%nat && (n <=? 57)%nat) || ((97 <=? n)%nat && (n <=? 102)%nat)
  || ((65 <=? n)%nat && (n <=? 70)%nat).

Definition lower (c : Ascii.ascii) : Ascii.ascii :=
  let n := Ascii.nat_of_ascii c in
  if (65 <=? n)%nat && (n <=? 90)%nat then Ascii.ascii_of_nat (n + 32) else c.

Fixpoint string_map (f : Ascii.ascii -> Ascii.ascii) (s : string) : string :=
  match s with
  | EmptyString => EmptyString
  | String c s' => String (f c) (string_map f s')
  end.

Fixpoint string_forall (f : Ascii.ascii -> bool) (s : string) : bool :=
  match s with
  | EmptyString => true
  | String c s' => f c && string_forall f s'
  end.

(** The named colours the examples use. *)
Definition named_colors : list (string * string) :=
  [("r", "#ff0000"); ("g", "#008000"); ("b", "#0000ff");
   ("k", "#000000"); ("w", "#ffffff");
   ("red", "#ff0000"); ("green", "#008000"); ("blue", "#0000ff");
   ("black", "#000000"); ("white", "#ffffff"); ("none", "#000000")].

Fixpoint assoc (k : string) (l : list (string * string)) : option string :=
  match l with
  | [] => None
  | (k', v) :: l' => if String.eqb k k' then Some v else assoc k l'
  end.

Definition str_to_hex (s : string) : res string :=
  match s with
  | String c digits =>
      if Ascii.eqb c (Ascii.ascii_of_nat 35) then
        if (String.length digits =? 6)%nat && string_forall is_hex_digit digits
        then Ok (String c (string_map lower digits))
        else Raise ValueError
      else match assoc s named_colors with
           | Some h => Ok h
           | None => Raise ValueError
           end
  | EmptyString => Raise ValueError
  end.

Definition toy_to_hex (c : tcolor) : res string :=
  match c with
  | Str s => str_to_hex s
  | Drawn h _ _ => Ok h
  end.

(** The colours of the editable colormaps, by colormap id. *)
Definition tcmstate : Type := list (list string).

Definition toy_get_color (st : tcmstate) (cm : tcmap) : option (list tcolor) :=
  match cm with
  | Named _ => None
  | Editable i => Some (Str <$> default [] (st !! i))
  end.

Definition toy_set_color (cm : tcmap) (new_color : string) (index : nat + nat)
  (st : tcmstate) : tcmstate :=
  match cm, index with
  | Editable i, inl n => <[i := <[n := new_color]> (default [] (st !! i))]> st
  | _, _ => st
  end.

(** A named colormap gives a grey level, an editable one its colour at
    the position. *)
Definition toy_call (st : tcmstate) (cm : tcmap) (value : nat) : tcolor :=
  match cm with
  | Named _ => Drawn (if value is 0 then "#101010" else "#808080") cm value
  | Editable i =>
      let s := default "k" (default [] (st !! i) !! value) in
      Drawn (match str_to_hex s with Ok h => h | Raise _ => "#000000" end)
        cm value
  end.

Definition is_digit (c : Ascii.ascii) : bool :=
  let n := Ascii.nat_of_ascii c in ((48 <=? n)%nat && (n <=? 57)%nat).

(** Digits with one point among them. *)
Fixpoint is_decimal (seen_point : bool) (s : string) : bool :=
  match s with
  | EmptyString => seen_point
  | String c s' =>
      if Ascii.eqb c (Ascii.ascii_of_nat 46)
      then negb seen_point && is_decimal true s'
      else is_digit c && is_decimal seen_point s'
  end.

(** A stand-in for the builtin [float] on strings: it accepts the
    decimal notation with a point, and the number is kept as its text. *)
Definition float (s : string) : res string :=
  if is_decimal false s then Ok s else Raise ValueError.

(** The decimal notation of a number. *)
Fixpoint decimal (fuel n : nat) (acc : string) : string :=
  match fuel with
  | 0 => acc
  | S fuel' =>
      let acc' := String (Ascii.ascii_of_nat (48 + n mod 10)) acc in
      if (n / 10 =? 0)%nat then acc' else decimal fuel' (n / 10) acc'
  end.

Definition nat_str (n : nat) : string := decimal (S n) n "".

#[global] Instance toy : Interface := {|
  color := tcolor;
  cmap := tcmap;
  val := nat;
  cmstate := tcmstate;
  to_hex := toy_to_hex;
  alpha_zero := fun c => if c is Str "none" then true else false;
  len_zero := fun c => if c is Str "" then true else false;
  cmap_of := fun c => if c is Drawn _ cm v then Some (cm, v) else None;
  of_str := Str;
  cm_get_color := toy_get_color;
  cm_has_set_color := fun cm => if cm is Editable _ then true else false;
  cm_set_color := toy_set_color;
  cm_call := toy_call;
  cm_call0 := fun st cm => toy_call st cm 0;
  cm_name := fun cm => match cm with Named n => n | Editable _ => "editable" end;
  val_str := nat_str;
  colormaps := ["viridis"; "gray"];
  get_cmap := Named;
  cm_gradient := fun name =>
    if decide (name ∈ ["viridis"; "gray"])
    then "background-color: qlineargradient(" +:+ name +:+ ");"
    else ""
|}.

(** A stand-in for [str.strip()]: the white space among the
    characters up to 255. *)
Definition is_space (c : Ascii.ascii) : bool :=
  let n := Ascii.nat_of_ascii c in
  (n =? 32)%nat || ((9 <=? n)%nat && (n <=? 13)%nat)
  || ((28 <=? n)%nat && (n <=? 31)%nat) || (n =? 133)%nat || (n =? 160)%nat.

Fixpoint lstrip (s : string) : string :=
  match s with
  | EmptyString => EmptyString
  | String c s' => if is_space c then lstrip s' else s
  end.

Fixpoint rstrip (s : string) : string :=
  match s with
  | EmptyString => EmptyString
  | String c s' =>
      match rstrip s' with
      | EmptyString => if is_space c then EmptyString else String c EmptyString
      | r => String c r
      end
  end.

Definition toy_strip (s : string) : string := rstrip (lstrip s).

#[global] Instance toy_builtins : Builtins := {| strip := toy_strip |}.

(** [s[:n]] *)
Fixpoint string_take (n : N) (s : string) : string :=
  match s with
  | EmptyString => EmptyString
  | String c s' =>
      if (n =? 0)%N then EmptyString else String c (string_take (N.pred n) s')
  end.

(** [s.endswith(suffix)] *)
Definition ends_with (suffix s : string) : bool :=
  String.eqb
    (string_drop (String.length s - String.length suffix) s) suffix
  && (String.length suffix <=? String.length s)%nat.

(** A stand-in for the text edit: of the markup it knows bold text,
    a text between the tags b and /b, of which the plain text is what
    stands between the tags. Any other text is plain. *)
Definition toy_text_edit (s : string) : string :=
  if String.prefix "<b>" s && ends_with "</b>" s
     && (7 <=? String.length s)%nat
  then string_take (N.of_nat (String.length s - 7)) (string_drop 3 s)
  else s.

(** A stand-in for the line edit, with the default [maxLength()]. *)
Definition toy_line_edit (s : string) : string := string_take 32767 s.

#[global] Instance toy_toolkit : Toolkit := {|
  text_edit_plain := toy_text_edit;
  line_edit_text := toy_line_edit
|}.

End Toy.

(** ** The colour chooser and its colour buttons
    ([QtGui.ColorChooserWidget], [QtShortCuts.QDragableColor]) *)

Module Chooser.

Import ColorGraph.

Section WithMpl.
Context {mpl : Interface} {builtins : Builtins} {toolkit : Toolkit}.

(** A [QDragableColor]. Its signal [color_changed] is connected once,
    in [addColorButton], to [lambda c: self.colorChanged(c,
    color_base=basecolor)]; [b_basecolor] is the [basecolor] of that
    connection. *)
Record button : Type := mk_button {
  b_color : string;
  b_text : string;
  b_styleSheet : string;
  b_basecolor : option key
}.


(** The [ColorChooserWidget] with the objects it owns or reaches:
    the figure of its canvas, the colour buttons created so far (a
    button is identified by its position in [buttons]), the text of
    [colors_text_widget], and the files on disk. The attributes
    [color_buttons] and [color_buttons_list] do not exist before the
    first [updateColors]. *)
Record chooser : Type := mk_chooser {
  figure : artist;
  fig : fstate;
  buttons : list button;
  color_keys : list key;                  (* [self.color_artists] *)
  swap_counter : nat;
  trigger_no_update : bool;
  color_buttons : option (list (key * nat));
  color_buttons_list : option (list nat);
  layout_colors : list nat;
  colors_text : string;
  last_save_folder : option string;
  files : gmap string string;
  draws : nat                             (* calls of [canvas.draw()] *)
}.

Definition with_fig (f : fstate) (w : chooser) : chooser :=
  mk_chooser (figure w) f (buttons w) (color_keys w) (swap_counter w)
    (trigger_no_update w) (color_buttons w) (color_buttons_list w)
    (layout_colors w) (colors_text w) (last_save_folder w) (files w) (draws w).

Definition with_buttons (b : list button) (w : chooser) : chooser :=
  mk_chooser (figure w) (fig w) b (color_keys w) (swap_counter w)
    (trigger_no_update w) (color_buttons w) (color_buttons_list w)
    (layout_colors w) (colors_text w) (last_save_folder w) (files w) (draws w).

Definition with_color_keys (k : list key) (w : chooser) : chooser :=
  mk_chooser (figure w) (fig w) (buttons w) k (swap_counter w)
    (trigger_no_update w) (color_buttons w) (color_buttons_list w)
    (layout_colors w) (colors_text w) (last_save_folder w) (files w) (draws w).

Definition with_swap_counter (n : nat) (w : chooser) : chooser :=
  mk_chooser (figure w) (fig w) (buttons w) (color_keys w) n
    (trigger_no_update w) (color_buttons w) (color_buttons_list w)
    (layout_colors w) (colors_text w) (last_save_folder w) (files w) (draws w).

Definition with_trigger_no_update (b : bool) (w : chooser) : chooser :=
  mk_chooser (figure w) (fig w) (buttons w) (color_keys w) (swap_counter w)
    b (color_buttons w) (color_buttons_list w)
    (layout_colors w) (colors_text w) (last_save_folder w) (files w) (draws w).

Definition with_color_buttons (d : option (list (key * nat))) (w : chooser)
  : chooser :=
  mk_chooser (figure w) (fig w) (buttons w) (color_keys w) (swap_counter w)
    (trigger_no_update w) d (color_buttons_list w)
    (layout_colors w) (colors_text w) (last_save_folder w) (files w) (draws w).

Definition with_color_buttons_list (l : option (list nat)) (w : chooser)
  : chooser :=
  mk_chooser (figure w) (fig w) (buttons w) (color_keys w) (swap_counter w)
    (trigger_no_update w) (color_buttons w) l
    (layout_colors w) (colors_text w) (last_save_folder w) (files w) (draws w).

Definition with_layout_colors (l : list nat) (w : chooser) : chooser :=
  mk_chooser (figure w) (fig w) (buttons w) (color_keys w) (swap_counter w)
    (trigger_no_update w) (color_buttons w) (color_buttons_list w)
    l (colors_text w) (last_save_folder w) (files w) (draws w).

Definition with_colors_text (t : string) (w : chooser) : chooser :=
  mk_chooser (figure w) (fig w) (buttons w) (color_keys w) (swap_counter w)
    (trigger_no_update w) (color_buttons w) (color_buttons_list w)
    (layout_colors w) t (last_save_folder w) (files w) (draws w).

Definition with_last_save_folder (p : option string) (w : chooser) : chooser :=
  mk_chooser (figure w) (fig w) (buttons w) (color_keys w) (swap_counter w)
    (trigger_no_update w) (color_buttons w) (color_buttons_list w)
    (layout_colors w) (colors_text w) p (files w) (draws w).

Definition with_files (f : gmap string string) (w : chooser) : chooser :=
  mk_chooser (figure w) (fig w) (buttons w) (color_keys w) (swap_counter w)
    (trigger_no_update w) (color_buttons w) (color_buttons_list w)
    (layout_colors w) (colors_text w) (last_save_folder w) f (draws w).

Definition with_draws (n : nat) (w : chooser) : chooser :=
  mk_chooser (figure w) (fig w) (buttons w) (color_keys w) (swap_counter w)
    (trigger_no_update w) (color_buttons w) (color_buttons_list w)
    (layout_colors w) (colors_text w) (last_save_folder w) (files w) n.

(** A slot run by a signal: an exception that escapes it goes to
    [sys.excepthook] (replaced in [QtGui.py]) and does not reach the
    code that emitted the signal; what the slot did so far stays. *)
Definition run_slot {S : Type} (slot : M S unit) : M S unit :=
  fun s => ((slot s).1, Ok tt).

(** Run a function of the figure on the figure of the canvas. *)
Definition on_figure {A : Type} (m : M fstate A) : M chooser A :=
  fun w => let '(f, r) := m (fig w) in (with_fig f w, r).

(** An attribute that may not exist yet. *)
Definition attribute {A : Type} (f : chooser -> option A) : M chooser A :=
  fun w => match f w with
           | Some a => (w, Ok a)
           | None => (w, Raise AttributeError)
           end.

(** A lookup that raises [e] when there is nothing. *)
Definition attribute_or {A : Type} (e : exn) (f : chooser -> option A)
  : M chooser A :=
  fun w => match f w with
           | Some a => (w, Ok a)
           | None => (w, Raise e)
           end.

(** The style sheet set at the end of [QDragableColor.setColor]. *)
Definition style_of (value current_color : string) : string :=
  if decide (value ∈ colormaps)
  then "text-align: center; border: 2px solid black; padding: 0.1em; "
         +:+ cm_gradient current_color
  else "text-align: center; background-color: " +:+ value
         +:+ "; border: 2px solid black; padding: 0.1em; ".

(** The colour a button holds, if the button exists. *)
Definition color_of (w : chooser) (wid : nat) : option string :=
  b_color <$> buttons w !! wid.

(** [QDragableColor.getColor()] of the button [wid]. *)
Definition getColor (wid : nat) : M chooser string :=
  attribute (fun w => b_color <$> buttons w !! wid).


(** [if basecolor:] *)
Definition truthy (basecolor : option key) : bool :=
  match basecolor with
  | None => false
  | Some (KStr s) => negb (String.eqb s "")
  | Some (KCmap _) => true
  end.

(** [d[k] = v] *)
Fixpoint dict_set (k : key) (v : nat) (d : list (key * nat)) : list (key * nat) :=
  match d with
  | [] => [(k, v)]
  | (k', v') :: d' =>
      if decide (k' = k) then (k', v) :: d' else (k', v') :: dict_set k v d'
  end.

(** [ColorChooserWidget.addColorButton(color, basecolor=None)]. The
    constructor of the button shows and stores the value; nothing is
    connected to its signal yet when the constructor emits it. A
    colormap object as [color] is not a [str], which the label of the
    toolkit rejects. *)
Definition addColorButton (color : key) (basecolor : option key)
  : M chooser unit :=
  value ← match color with
          | KStr s => match to_hex (of_str s) with
                      | Ok h => mret h
                      | Raise ValueError => mret s
                      | Raise e => raise e
                      end
          | KCmap _ => raise TypeError
          end;
  wid ← gets (fun w => length (buttons w));
  modify (fun w =>
    with_buttons
      (buttons w ++ [mk_button value value (style_of value value) basecolor]) w);;
  modify (fun w => with_layout_colors (layout_colors w ++ [wid]) w);;
  match basecolor with
  | Some base =>
      if truthy basecolor
      then d ← attribute color_buttons;
           modify (with_color_buttons (Some (dict_set base wid d)))
      else mret tt
  | None => mret tt
  end;;
  l ← attribute color_buttons_list;
  modify (with_color_buttons_list (Some (l ++ [wid]))).

(** [colorToText(color)] inside [updateColors]; [None] stands for a
    key that is returned as it is and is not a [str]. *)
Definition colorToText (color : key) : res (option string) :=
  match color with
  | KStr s => match to_hex (of_str s) with
              | Ok h => Ok (Some h)
              | Raise ValueError => Ok (Some s)
              | Raise e => Raise e
              end
  | KCmap _ => Ok None
  end.

Fixpoint colors_to_text (colors : list key) : res (list (option string)) :=
  match colors with
  | [] => Ok []
  | c :: cs =>
      match colorToText c with
      | Ok t => match colors_to_text cs with
                | Ok ts => Ok (t :: ts)
                | Raise e => Raise e
                end
      | Raise e => Raise e
      end
  end.

(** ["\n".join(texts)], a [TypeError] when an item is not a [str]. *)
Definition join_lines (texts : list (option string)) : res string :=
  match mapM id texts with
  | Some ts => Ok (join (String LF EmptyString) ts)
  | None => Raise TypeError
  end.

(** The text [updateColors] writes for the keys in [self.color_artists]. *)
Definition listing (keys : list key) : res string :=
  match colors_to_text (take 10 keys) with
  | Ok texts => join_lines texts
  | Raise e => Raise e
  end.

(** [ColorChooserWidget.updateColors()]. While it sets the text,
    [trigger_no_update] is [True], so the slot [colors_changed] that the
    [textChanged] signal runs returns at once (see [colors_changed]). *)
Definition updateColors : M chooser unit :=
  w ← get;
  on_figure (figureListColors (figure w));;
  modify (fun w =>
    with_color_keys (cat_keys (default [] (color_artists (fig w)))) w);;
  modify (with_color_buttons (Some []));;
  modify (with_color_buttons_list (Some []));;
  modify (with_layout_colors []);;
  modify (with_color_buttons_list (Some []));;
  keys ← gets color_keys;
  for_each (fun color => addColorButton color (Some color)) (take 20 keys);;
  modify (with_trigger_no_update true);;
  try_finally
    (text ← lift (listing keys); modify (with_colors_text text))
    (with_trigger_no_update false).

(** [ColorChooserWidget.color_selected(new_color, color_base)] *)
Definition color_selected (new_color : string) (color_base : option key)
  : M chooser unit :=
  match color_base with
  | None => mret tt
  | Some base =>
      w ← get;
      on_figure (figureSwapColor (figure w) new_color base);;
      modify (fun w => with_draws (S (draws w)) w)
  end.

(** [ColorChooserWidget.colorChanged(c, color_base)] *)
Definition colorChanged (c : string) (color_base : option key) : M chooser unit :=
  color_selected c color_base;;
  modify (fun w => with_swap_counter (S (swap_counter w)) w);;
  n ← gets swap_counter;
  if decide (n = 2)
  then modify (with_swap_counter 0);; updateColors
  else mret tt.

(** [QDragableColor.setColor(value)] on the button [wid]: store and
    show the value, emit [color_changed], set the style sheet. *)
Definition setColor (wid : nat) (value : string) : M chooser unit :=
  b ← attribute (fun w => buttons w !! wid);
  modify (fun w =>
    with_buttons
      (<[wid := mk_button value value (b_styleSheet b) (b_basecolor b)]>
         (buttons w)) w);;
  run_slot (colorChanged value (b_basecolor b));;
  b' ← attribute (fun w => buttons w !! wid);
  modify (fun w =>
    with_buttons
      (<[wid := mk_button (b_color b') (b_text b')
                  (style_of value (b_color b')) (b_basecolor b')]>
         (buttons w)) w).

(** [QDragableColor.dropEvent(event)] on the button [self], with
    [event.source()] the button [source]. *)
Definition dropEvent (self source : nat) : M chooser unit :=
  color ← getColor source;
  own ← getColor self;
  setColor source own;;
  setColor self color.

(** The body of the loop of [colors_changed]. *)
Definition colors_changed_line (index : nat) (color : string) : M chooser unit :=
  c ← match to_hex (of_str (strip color)) with
      | Ok h => mret (Some h)
      | Raise ValueError =>
          mret (if decide (color ∈ colormaps) then Some color else None)
      | Raise e => raise e
      end;
  match c with
  | None => mret tt
  | Some color' =>
      l ← attribute color_buttons_list;
      (if decide (length l <= index)
       then addColorButton (KStr color') None
       else mret tt);;
      l' ← attribute color_buttons_list;
      match l' !! index with
      | None => raise IndexError
      | Some wid => setColor wid color'
      end
  end.

Fixpoint colors_changed_loop (index : nat) (lines : list string)
  : M chooser unit :=
  match lines with
  | [] => mret tt
  | line :: rest =>
      colors_changed_line index line;;
      colors_changed_loop (S index) rest
  end.

(** [ColorChooserWidget.colors_changed()], the slot of the
    [textChanged] signal of [colors_text_widget]. *)
Definition colors_changed : M chooser unit :=
  w ← get;
  if trigger_no_update w then mret tt
  else colors_changed_loop 0 (split_on LF (colors_text w)).

(** Whether a line of the text makes [colors_changed] set a colour:
    it is a colour, or the name of a colormap. *)
Definition sets_color (line : string) : bool :=
  match to_hex (of_str (strip line)) with
  | Ok _ => true
  | Raise ValueError => bool_decide (line ∈ colormaps)
  | Raise _ => false
  end.






End WithMpl.

End Chooser.

(** ** [Linkable]: a widget linked to a property of an artist *)

Module Linkable.

(** The classes [Linkable] tells apart with [isinstance]. *)
Inductive ekind : Type := Text | Axes | Figure | Other.

#[global] Instance ekind_eq_dec : EqDecision ekind.
Proof. solve_decision. Defined.

(** The part of the figure that the functions here read and do not
    change. Artists are identified by a number. [xaxis_label elm] is
    [elm.get_xaxis().get_label()], [None] when [elm] has no
    [get_xaxis]; [selection_targets fig] lists the [target] of each
    item of [fig.selection.targets]. *)
Record scene : Type := mk_scene {
  kind : nat -> ekind;
  xaxis_label : nat -> option nat;
  yaxis_label : nat -> option nat;
  main_figure : nat -> nat;
  selection_targets : nat -> list nat
}.

(** What a class that mixes in [Linkable] provides: [get()], [set(value)]
    and [getSerialized()] on the content [W] of the widget. *)
Class Widget (W value : Type) : Type := {
  w_get : W -> value;
  w_set : value -> W -> res W;
  w_getSerialized : W -> string
}.

(** The arguments of [link]. *)
Record config : Type := mk_config {
  direct : bool;
  property_name : string;
  condition : nat -> res bool
}.

Inductive axis : Type := X | Y.

Section Link.
Context {W value : Type} `{Widget W value}.
Variable sc : scene.
Variable cfg : config.

(** The list [[undo, redo, "Change property"]]: the two closures are
    given by the values they captured. *)
Record edit : Type := mk_edit {
  undo_values : list (nat * string * value);
  redo_values : list (nat * string * value);
  label : string
}.

(** A call received by a change tracker. *)
Inductive call : Type :=
| AddEdit (e : edit)
| AddChange (element : nat) (command : string)
| AddNewTextChange (element : nat).

(** The artists' properties, the widget, and what the figures
    received. [props] holds, for an artist and a property name, the
    value [get_<name>()] returns and [set_<name>(v)] replaces; an artist
    without an entry has neither method. [attrs] holds the values
    reached by an attribute path, for a link in direct mode. *)
Record state : Type := mk_state {
  props : gmap (nat * string) value;
  attrs : gmap (nat * string) value;
  element : option nat;
  content : W;
  enabled : bool;
  visible : bool;
  tracker : list (nat * call);     (* figure, call *)
  draws : list nat;                (* figures whose canvas was drawn *)
  property_changed : list nat      (* figures whose signal was emitted *)
}.

Definition with_props (p : gmap (nat * string) value) (st : state) : state :=
  mk_state p (attrs st) (element st) (content st) (enabled st) (visible st)
    (tracker st) (draws st) (property_changed st).

Definition with_attrs (a : gmap (nat * string) value) (st : state) : state :=
  mk_state (props st) a (element st) (content st) (enabled st) (visible st)
    (tracker st) (draws st) (property_changed st).

Definition with_element (e : option nat) (st : state) : state :=
  mk_state (props st) (attrs st) e (content st) (enabled st) (visible st)
    (tracker st) (draws st) (property_changed st).

Definition with_content (c : W) (st : state) : state :=
  mk_state (props st) (attrs st) (element st) c (enabled st) (visible st)
    (tracker st) (draws st) (property_changed st).

Definition with_enabled (b : bool) (st : state) : state :=
  mk_state (props st) (attrs st) (element st) (content st) b (visible st)
    (tracker st) (draws st) (property_changed st).

Definition with_visible (b : bool) (st : state) : state :=
  mk_state (props st) (attrs st) (element st) (content st) (enabled st) b
    (tracker st) (draws st) (property_changed st).

Definition with_tracker (t : list (nat * call)) (st : state) : state :=
  mk_state (props st) (attrs st) (element st) (content st) (enabled st)
    (visible st) t (draws st) (property_changed st).

Definition with_draws (d : list nat) (st : state) : state :=
  mk_state (props st) (attrs st) (element st) (content st) (enabled st)
    (visible st) (tracker st) d (property_changed st).

Definition with_property_changed (l : list nat) (st : state) : state :=
  mk_state (props st) (attrs st) (element st) (content st) (enabled st)
    (visible st) (tracker st) (draws st) l.

(** [getattr(elm, "get_" + name)()]; [missing] is the exception when
    the artist has no such method: [AttributeError] from [getattr]
    itself, [TypeError] from calling the default [None]. *)
Definition call_getter (elm : nat) (name : string) (missing : exn)
  : M state value :=
  fun st =>
    match props st !! (elm, name) with
    | Some v => (st, Ok v)
    | None => (st, Raise missing)
    end.

(** [getattr(elm, "set_" + name)(v)] *)
Definition call_setter (elm : nat) (name : string) (v : value) (missing : exn)
  : M state unit :=
  fun st =>
    match props st !! (elm, name) with
    | Some _ => (with_props (<[(elm, name) := v]> (props st)) st, Ok tt)
    | None => (st, Raise missing)
    end.

(** [self.element], which [main_figure] and the accessors need. *)
Definition the_element : M state nat :=
  fun st =>
    match element st with
    | Some e => (st, Ok e)
    | None => (st, Raise AttributeError)
    end.

(** The search for the axis whose label the linked element is. *)
Fixpoint find_label (e : nat) (targets : list nat) : res (option axis) :=
  match targets with
  | [] => Ok None
  | elm :: rest =>
      match xaxis_label sc elm with
      | None => Raise AttributeError
      | Some lx =>
          if decide (e = lx) then Ok (Some X)
          else
            match yaxis_label sc elm with
            | None => Raise AttributeError
            | Some ly =>
                if decide (e = ly) then Ok (Some Y) else find_label e rest
            end
      end
  end.

(** [label_object]: the special treatment of the x and y labels. *)
Definition label_object (e : nat) : res (option axis) :=
  let targets := selection_targets sc (main_figure sc e) in
  match kind sc e, targets with
  | Text, t0 :: _ =>
      if decide (kind sc t0 = Axes) then find_label e targets else Ok None
  | _, _ => Ok None
  end.

(** The artist a selection target stands for. *)
Definition redirect (l : option axis) (elm : nat) : res nat :=
  match l with
  | None => Ok elm
  | Some X =>
      match xaxis_label sc elm with
      | Some x => Ok x
      | None => Raise AttributeError
      end
  | Some Y =>
      match yaxis_label sc elm with
      | Some y => Ok y
      | None => Raise AttributeError
      end
  end.

(** The loop of [set] over the selection targets. *)
Fixpoint set_loop (e : nat) (l : option axis) (v : list value) (index : nat)
  (targets : list nat) (elements : list nat) : M state (list nat) :=
  match targets with
  | [] => mret elements
  | elm0 :: rest =>
      elm ← lift (redirect l elm0);
      if decide (elm ≠ e) then
        let index := S index in
        done ← try_except
                 (vi ← lift (match v !! index with
                             | Some vi => Ok vi
                             | None => Raise IndexError
                             end);
                  call_setter elm (property_name cfg) vi TypeError;;
                  mret true)
                 TypeError (mret false);
        set_loop e l v index rest
          (if done : bool then elements ++ [elm] else elements)
      else set_loop e l v index rest elements
  end.

(** [setLinkedProperty(v, v_list=None)] of a link that is not direct. *)
Definition set_linked (v : value) (v_list : option (list value))
  : M state (list nat) :=
  e ← the_element;
  let targets := selection_targets sc (main_figure sc e) in
  let vs := match v_list with
            | None => v :: replicate (length targets) v
            | Some l => l
            end in
  l ← lift (label_object e);
  v0 ← lift (match vs !! 0 with Some v0 => Ok v0 | None => Raise IndexError end);
  call_setter e (property_name cfg) v0 AttributeError;;
  set_loop e l vs 0 targets [e].

(** The loop of [getAll] over the selection targets. *)
Fixpoint getAll_loop (e : nat) (l : option axis) (targets : list nat)
  (values : list (nat * string * value))
  : M state (list (nat * string * value)) :=
  match targets with
  | [] => mret values
  | elm0 :: rest =>
      elm ← lift (redirect l elm0);
      if decide (elm ≠ e) then
        got ← try_except
                (x ← call_getter elm (property_name cfg) TypeError;
                 mret (Some x))
                TypeError (mret None);
        getAll_loop e l rest
          (match got with
           | Some x => values ++ [(elm, property_name cfg, x)]
           | None => values
           end)
      else getAll_loop e l rest values
  end.

(** [getLinkedPropertyAll()] of a link that is not direct. *)
Definition getAll : M state (list (nat * string * value)) :=
  e ← the_element;
  let targets := selection_targets sc (main_figure sc e) in
  l ← lift (label_object e);
  x ← call_getter e (property_name cfg) AttributeError;
  getAll_loop e l targets [(e, property_name cfg, x)].

(** [get] and [set] of a direct link. The attribute path is followed
    from the element; the value at its end is kept in [attrs]. *)
Definition read_attr (e : nat) : M state value :=
  fun st =>
    match attrs st !! (e, property_name cfg) with
    | Some v => (st, Ok v)
    | None => (st, Raise AttributeError)
    end.

Definition direct_get : M state value :=
  e ← the_element;
  read_attr e.

Definition direct_set (v : value) : M state (list nat) :=
  direct_get;;
  e ← the_element;
  modify (fun st => with_attrs (<[(e, property_name cfg) := v]> (attrs st)) st);;
  mret [e].

(** The attributes [link] assigns, by mode. In direct mode it assigns
    no [getLinkedPropertyAll]; reading that attribute raises. *)
Definition setLinkedProperty (v : value) : M state (list nat) :=
  if direct cfg then direct_set v else set_linked v None.

Definition getLinkedProperty : M state value :=
  if direct cfg then direct_get
  else e ← the_element; call_getter e (property_name cfg) AttributeError.

Definition getLinkedPropertyAll : M state (list (nat * string * value)) :=
  if direct cfg then raise AttributeError else getAll.


(** [fig.change_tracker.<call>] *)
Definition track (fig : nat) (c : call) : M state unit :=
  modify (fun st => with_tracker (tracker st ++ [(fig, c)]) st).

(** The figure an element reports to. *)
Definition figure_of (elem : nat) : nat :=
  if decide (kind sc elem = Figure) then elem else main_figure sc elem.




(** [Linkable.updateLink()], the slot of [editingFinished]. *)
Definition updateLink : M state unit :=
  old_value ← getLinkedPropertyAll;
  applied ← try_except
              (st ← get;
               elements ← setLinkedProperty (w_get (content st));
               mret (Some elements))
              AttributeError (mret None);
  match applied with
  | None => mret tt
  | Some elements =>
      new_value ← getLinkedPropertyAll;
      first ← lift (match elements !! 0 with
                    | Some x => Ok x
                    | None => Raise IndexError
                    end);
      track (figure_of first)
        (AddEdit (mk_edit old_value new_value "Change property"));;
      modify (fun st => with_draws (draws st ++ [figure_of first]) st);;
      e ← the_element;
      modify (fun st =>
        with_property_changed (property_changed st ++ [main_figure sc e]) st)
  end.

(** [Linkable.setTarget(element)] *)
Definition setTarget (e : nat) : M state unit :=
  modify (with_element (Some e));;
  shown ← try_except
            (v ← getLinkedProperty;
             st ← get;
             c ← lift (w_set v (content st));
             modify (with_content c);;
             b ← lift (condition cfg e);
             modify (with_enabled b);;
             mret true)
            AttributeError
            (modify (with_visible false);; mret false);
  if shown : bool then modify (with_visible true) else mret tt.

(** *** What the amended claims say, in their words

    These definitions are not taken from the code; the properties
    compare the code with them. *)






(** The values of the property of the artists. *)
Definition captured (p : gmap (nat * string) value) (elems : list nat)
  : list (nat * string * value) :=
  omap (fun t => (fun v => (t, property_name cfg, v))
                   <$> p !! (t, property_name cfg)) elems.



End Link.

(** [TextWidget] as a linkable widget of string values, without
    literal decoding: [get] is [text()], [set(value)] is
    [setText(str(value))], [getSerialized] quotes the text. *)
#[global] Instance TextWidget_Widget `{Toolkit}
  : Widget TextWidget.t string := {|
  w_get := TextWidget.text;
  w_set := fun v w => Ok (TextWidget.setText w v false);
  w_getSerialized := fun w => dquote +:+ TextWidget.text w +:+ dquote
|}.

End Linkable.

(** ** Example figures *)

Module Example.

Import ColorGraph Chooser Toy.

Definition plain (id : nat) (children : list artist) : artist :=
  Artist (mk_ainfo id Other "" false) children.

(** A figure with two lines, one red and one green. *)
Definition two_lines : artist := plain 0 [plain 1 []; plain 2 []].

Definition two_lines_state : fstate :=
  mk_fstate
    (<[(1, "color") := GOne (Str "#ff0000")]>
       (<[(2, "color") := GOne (Str "#00ff00")]> ∅))
    [] None [].

(** A figure with an axes, a legend in it, and a red line in the
    legend. *)
Definition deep_line : ainfo := mk_ainfo 3 Other "" false.

Definition nested : artist :=
  plain 0 [plain 1 [plain 2 [Artist deep_line []]]].

Definition nested_state : fstate :=
  mk_fstate (<[(3, "color") := GOne (Str "r")]> ∅) [] None [].

(** A figure with a line that takes its colour, red, from position 0
    of an editable colormap made of red and black. *)
Definition mapped_line : ainfo := mk_ainfo 1 Other "" false.

Definition mapped : artist := plain 0 [Artist mapped_line []].

Definition mapped_state : fstate :=
  mk_fstate (<[(1, "color") := GOne (Drawn "#ff0000" (Editable 0) 0)]> ∅)
    [["r"; "k"]] None [].




(** The colour chooser of that figure when it is created, and after
    [PlotWindow.showEvent] has called [updateColors]. *)
Definition created : chooser :=
  mk_chooser two_lines two_lines_state [] [] 0 false None None [] "" None ∅ 0.

Definition shown : chooser := (updateColors created).1.




(** A figure (0) with two axes (10 and 11), both selected, the x
    labels (1 and 2) and the y labels (3 and 4) of the axes. The
    labels and the axes have an alpha value, the labels only have a
    font size. *)
Definition axes_scene : Linkable.scene :=
  Linkable.mk_scene
    (fun n => match n with
              | 0 => Linkable.Figure
              | 10 | 11 => Linkable.Axes
              | 1 | 2 | 3 | 4 => Linkable.Text
              | _ => Linkable.Other
              end)
    (fun n => match n with 10 => Some 1 | 11 => Some 2 | _ => None end)
    (fun n => match n with 10 => Some 3 | 11 => Some 4 | _ => None end)
    (fun _ => 0)
    (fun _ => [10; 11]).

Definition alpha_link : Linkable.config :=
  Linkable.mk_config false "alpha" (fun _ => Ok true).


(** A text widget in which the user has typed 0.5, linked to the x
    label of the first axes. *)
Definition label_state : @Linkable.state TextWidget.t string :=
  Linkable.mk_state
    (list_to_map
       [((1, "alpha"), "1.0"); ((2, "alpha"), "1.0"); ((3, "alpha"), "1.0");
        ((4, "alpha"), "1.0"); ((10, "alpha"), "1.0"); ((11, "alpha"), "1.0");
        ((1, "fontsize"), "10"); ((2, "fontsize"), "10");
        ((3, "fontsize"), "10"); ((4, "fontsize"), "10")])
    ∅ (Some 1) (TextWidget.mk false None false "0.5" 0) true true [] [] [].




End Example.

(** ** [ComboWidget]: a labelled combo box *)

Module ComboWidget.

(** The attributes of a [ComboWidget]: the sequence [values] given to
    the constructor, which also are the items of the combo box
    [input1]; the current index of [input1]; [noSignal]; [emitted]
    counts the [editingFinished] emissions. *)
Record t : Type := mk {
  values : list string;
  currentIndex : Z;
  noSignal : bool;
  emitted : nat
}.

Definition with_currentIndex (i : Z) (w : t) : t :=
  mk (values w) i (noSignal w) (emitted w).

Definition with_noSignal (b : bool) (w : t) : t :=
  mk (values w) (currentIndex w) b (emitted w).

(** [self.editingFinished.emit()] *)
Definition emit (w : t) : t :=
  mk (values w) (currentIndex w) (noSignal w) (S (emitted w)).

(** [values.index(text)]: the first position of [text], a
    [ValueError] when it is not among the values. *)
Fixpoint index (text : string) (vs : list string) : res nat :=
  match vs with
  | [] => Raise ValueError
  | v :: rest =>
      if decide (v = text) then Ok 0
      else match index text rest with
           | Ok n => Ok (S n)
           | Raise e => Raise e
           end
  end.

(** [l[i]] for a Python integer: a negative index counts from the end. *)
Definition subscript {A : Type} (l : list A) (i : Z) : res A :=
  let j := if (i <? 0)%Z then (Z.of_nat (length l) + i)%Z else i in
  if (j <? 0)%Z then Raise IndexError
  else match l !! Z.to_nat j with
       | Some x => Ok x
       | None => Raise IndexError
       end.

(** [ComboWidget.valueChangeEvent()], the slot of
    [input1.currentIndexChanged]. *)
Definition valueChangeEvent : M t unit :=
  w ← get;
  if noSignal w then mret tt else modify emit.

(** [input1.setCurrentIndex(index)]: the combo box takes the index and
    emits [currentIndexChanged] when it is another one than before. *)
Definition setCurrentIndex (i : Z) : M t unit :=
  w ← get;
  if decide (currentIndex w = i) then mret tt
  else modify (with_currentIndex i);; Chooser.run_slot valueChangeEvent.

(** [ComboWidget.setText(text, signal=False)] *)
Definition setText (text : string) (signal : bool) : M t unit :=
  modify (with_noSignal true);;
  w ← get;
  i ← lift (index text (values w));
  setCurrentIndex (Z.of_nat i);;
  modify (with_noSignal false);;
  if signal then modify emit else mret tt.

(** [ComboWidget.text()] *)
Definition text (w : t) : res string :=
  subscript (values w) (currentIndex w).

(** [ComboWidget.get()], [set(value)] and [getSerialized()] *)
Definition get_value (w : t) : res string := text w.

Definition set_value (value : string) : M t unit := setText value false.

Definition getSerialized (w : t) : res string :=
  match get_value w with
  | Ok s => Ok (dquote +:+ s +:+ dquote)
  | Raise e => Raise e
  end.

End ComboWidget.

(** ** [CheckWidget]: a labelled check box *)

Module CheckWidget.

(** The state of the check box [input1], [noSignal], the values
    [stateChanged] emitted and the number of [editingFinished]
    emissions. *)
Record t : Type := mk {
  checked : bool;
  noSignal : bool;
  stateChanged : list bool;
  editingFinished : nat
}.

Definition with_checked (b : bool) (w : t) : t :=
  mk b (noSignal w) (stateChanged w) (editingFinished w).

Definition with_noSignal (b : bool) (w : t) : t :=
  mk (checked w) b (stateChanged w) (editingFinished w).

(** [self.stateChanged.emit(self.input1.isChecked())] followed by
    [self.editingFinished.emit()] *)
Definition emit_both (w : t) : t :=
  mk (checked w) (noSignal w) (stateChanged w ++ [checked w])
    (S (editingFinished w)).

(** [CheckWidget.onStateChanged()], the slot of [input1.stateChanged]. *)
Definition onStateChanged (w : t) : t :=
  if noSignal w then w else emit_both w.

(** [input1.setChecked(state)], also what a click of the user does:
    the check box takes the state and emits [stateChanged] when it is
    another one than before. *)
Definition input1_setChecked (state : bool) (w : t) : t :=
  if decide (checked w = state) then w
  else onStateChanged (with_checked state w).

(** [CheckWidget.setChecked(state, signal=False)] *)
Definition setChecked (state signal : bool) (w : t) : t :=
  let w1 := with_noSignal true w in
  let w2 := input1_setChecked state w1 in
  let w3 := with_noSignal false w2 in
  if signal then emit_both w3 else w3.

(** [CheckWidget.isChecked()], [get()], [set(value)], [getSerialized()] *)
Definition isChecked (w : t) : bool := checked w.
Definition get_value (w : t) : bool := isChecked w.
Definition set_value (value : bool) (w : t) : t := setChecked value false w.
Definition getSerialized (w : t) : string :=
  if get_value w then "True" else "False".

End CheckWidget.

(** ** [FreeNumberInput] as a widget: its text, its flag and its signal *)

Module FreeNumberInputWidget.

Section Widget.

(** Python floats are not part of the sources: [float] is the builtin
    on strings, [str] the builtin on floats, and [accepts] is the check
    of the toolkit that an emitted value fits the declared type of
    the signal [valueChanged = Signal(float)]. *)
Variable F : Type.
Variable float : string -> res F.
Variable str : F -> string.
Variable accepts : option F -> res unit.

(** The line edit: its text, its style sheet and its cursor, the
    attribute [send_signal], and the values [valueChanged] emitted. *)
Record t : Type := mk {
  text : string;
  send_signal : bool;
  styleSheet : string;
  cursorPosition : nat;
  valueChanged : list (option F)
}.

Definition with_text (s : string) (w : t) : t :=
  mk s (send_signal w) (styleSheet w) (String.length s) (valueChanged w).

Definition with_send_signal (b : bool) (w : t) : t :=
  mk (text w) b (styleSheet w) (cursorPosition w) (valueChanged w).

Definition with_styleSheet (s : string) (w : t) : t :=
  mk (text w) (send_signal w) s (cursorPosition w) (valueChanged w).

Definition with_cursorPosition (n : nat) (w : t) : t :=
  mk (text w) (send_signal w) (styleSheet w) n (valueChanged w).

(** [self.valueChanged.emit(value)] *)
Definition emit (v : option F) : M t unit :=
  lift (accepts v);;
  modify (fun w =>
    mk (text w) (send_signal w) (styleSheet w) (cursorPosition w)
      (valueChanged w ++ [v])).

Definition invalid_style : string := "background: #d56060; border: red".

(** [FreeNumberInput.emitValueChanged()], the slot of [textChanged]. *)
Definition emitValueChanged : M t unit :=
  w ← get;
  if send_signal w then
    try_except
      (v ← lift (FreeNumberInput.value F float (text w));
       emit v;;
       modify (with_styleSheet ""))
      TypeError
      (modify (with_styleSheet invalid_style))
  else mret tt.

(** [QLineEdit.setText(s)], also what an edit by the user does: the
    line edit holds the text, with the cursor at its end, and emits
    [textChanged] when the text is another one than before. *)
Definition line_setText (s : string) : M t unit :=
  w ← get;
  modify (with_text s);;
  if decide (text w = s) then mret tt
  else Chooser.run_slot emitValueChanged.

(** [FreeNumberInput.setValue(value)] *)
Definition setValue (value : F) : M t unit :=
  modify (with_send_signal false);;
  try_finally
    (line_setText (str value);;
     modify (with_cursorPosition 0))
    (with_send_signal true).

(** [FreeNumberInput.value()] of the widget. *)
Definition value (w : t) : res (option F) :=
  FreeNumberInput.value F float (text w).

End Widget.

End FreeNumberInputWidget.

(** ** [TextWidget]: the signal [editingFinished] *)

Module TextWidgetEvents.

Import TextWidget.

Definition emit (w : t) : t :=
  mk (noSignal w) (last_text w) (multiline w) (input1 w) (S (emitted w)).

(** [TextWidget.valueChangeEvent()], the slot of [textChanged] of a
    multi-line input and of [editingFinished] of a single-line one. *)
Definition valueChangeEvent (w : t) : t :=
  if negb (noSignal w) && negb (bool_decide (Some (input1 w) = last_text w))
  then emit w
  else w.

Section WithToolkit.
Context `{Toolkit}.

(** [self.input1.setText(text)]: the input holds what it makes of the
    text; a multi-line input emits [textChanged], a line edit emits
    nothing that is connected. *)
Definition input1_setText (s : string) (w : t) : t :=
  let w' := mk (noSignal w) (last_text w) (multiline w)
              (input1_holds (multiline w) s) (emitted w) in
  if multiline w then valueChangeEvent w' else w'.

(** [TextWidget.setText(text, signal=False)], statement by statement,
    with the slot that the input runs. *)
Definition setText_steps (w : t) (text0 : string) (signal : bool) : t :=
  let w1 := mk true (last_text w) (multiline w) (input1 w) (emitted w) in
  let text1 := replace newline backslash_n text0 in
  let w2 := mk (noSignal w1) (Some text1) (multiline w1) (input1 w1) (emitted w1) in
  let w3 := input1_setText text1 w2 in
  let w4 := mk false (last_text w3) (multiline w3) (input1 w3) (emitted w3) in
  if signal then emit w4 else w4.

End WithToolkit.

(** One run of the slot by the connected signal of the input, with
    the text [s] in the input: in a multi-line input every change of
    the text by the user ([textChanged]), in a single-line input the
    end of an edit ([editingFinished]: return, or the input left). *)
Definition slot_run (s : string) (w : t) : t :=
  valueChangeEvent
    (mk (noSignal w) (last_text w) (multiline w) s (emitted w)).

End TextWidgetEvents.


(** ** The patched [plt.figure]: the registry of figures *)

Module Figures.

(** A figure number as the caller gives it: an integer or a name. *)
Inductive num : Type :=
| Int (n : Z)
| Str (s : string).

#[global] Instance num_eq_dec : EqDecision num.
Proof. solve_decision. Defined.

#[global] Instance num_countable : Countable num.
Proof.
  refine (inj_countable'
            (fun n => match n with Int z => inl z | Str s => inr s end)
            (fun x => match x with inl z => Int z | inr s => Str s end) _).
  by intros [].
Defined.

(** The module-level dictionary [figures] (number to canvas), the
    windows created so far (a canvas is identified by the position of
    its window, which is titled with the number), the geometry the
    windows were given, and the active canvas of the plotting
    library. A canvas stands for its figure. *)
Record registry : Type := mk {
  figures : gmap num nat;
  windows : list num;
  geometry : gmap nat (Z * Z * Z * Z);
  active : option nat
}.

(** [PlotWindow(num).canvas]: the constructor makes its canvas the
    active one. *)
Definition PlotWindow (n : num) : M registry nat :=
  r ← get;
  let canvas := length (windows r) in
  modify (fun r => mk (figures r) (windows r ++ [n]) (geometry r) (Some canvas));;
  mret canvas.

(** [figure(num=None, figsize=None)]; a [figsize] is a pair of
    integers here, which [setGeometry] takes. *)
Definition figure (n : option num) (figsize : option (Z * Z)) : M registry nat :=
  r ← get;
  let n := match n with
           | None => Int (Z.of_nat (size (figures r)))
           | Some n => n
           end in
  (if decide (is_Some (figures r !! n)) then mret tt
   else
     canvas ← PlotWindow n;
     modify (fun r => mk (<[n := canvas]> (figures r)) (windows r) (geometry r)
                        (active r)));;
  r ← get;
  canvas ← lift (match figures r !! n with
                 | Some c => Ok c
                 | None => Raise KeyError
                 end);
  match figsize with
  | Some (w, h) =>
      modify (fun r =>
        mk (figures r) (windows r)
          (<[canvas := (100, 100, w * 80, h * 80)%Z]> (geometry r)) (active r))
  | None => mret tt
  end;;
  modify (fun r => mk (figures r) (windows r) (geometry r) (Some canvas));;
  mret canvas.

(** The sizes [setGeometry] takes: it reads its arguments as C
    integers and raises [OverflowError] for others. *)
Definition c_int (z : Z) : Prop := (- 2 ^ 31 <= z < 2 ^ 31)%Z.

Definition accepted (figsize : option (Z * Z)) : Prop :=
  match figsize with
  | Some (w, h) => c_int (w * 80) /\ c_int (h * 80)
  | None => True
  end.

(** The numbers in use are [0], ..., [len(figures) - 1]. *)
Definition dense (r : registry) : Prop :=
  forall k, is_Some (figures r !! k)
            <-> exists i, i < size (figures r) /\ k = Int (Z.of_nat i).

Definition empty : registry := mk ∅ [] ∅ None.

End Figures.

(** ** The colour chooser: the colour picker and the window *)

Module ChooserEvents.

Import ColorGraph Chooser.

Section WithMpl.
Context `{Interface}.

(** [ColorChooserWidget.resetSwapcounter(_)], the slot of
    [color_changed_by_color_picker] of every colour button. *)
Definition resetSwapcounter : M chooser unit :=
  modify (with_swap_counter 0);;
  updateColors.

(** [PlotWindow.showEvent(a0)] *)
Definition showEvent : M chooser unit := updateColors.

(** For the properties of [updateColors]: the text and the colour that
    the button made by [addColorButton(color, color)] shows, [None]
    when no button can be made for the key. *)
Definition button_value (c : key) : option string :=
  match c with
  | KStr s => match to_hex (of_str s) with
              | Ok h => Some h
              | Raise ValueError => Some s
              | Raise _ => None
              end
  | KCmap _ => None
  end.

(** The button [addColorButton(color, color)] makes for a key, linked
    to that key. *)
Definition button_for (c : key) (b : button) : Prop :=
  exists v, button_value c = Some v
            /\ b = mk_button v v (style_of v v) (Some c).

End WithMpl.

End ChooserEvents.

(** ** More examples *)

Module MoreExamples.

Import ColorGraph Chooser Toy.

(** The chooser of the two lines, after the user has put three lines
    of notes before a colour in the text. *)
Definition notes : list string := ["my"; "new"; "palette"].

Definition commented : chooser :=
  with_colors_text
    (join TextWidget.newline (notes ++ ["#0000ff"])) Example.shown.

(** A toolkit that takes a float for [valueChanged] and refuses
    [None]. *)
Definition floats_only (v : option string) : res unit :=
  match v with
  | Some _ => Ok tt
  | None => Raise TypeError
  end.

(** The figure of the two lines with its colours listed. *)
Definition listed_lines : fstate :=
  (figureListColors Example.two_lines Example.two_lines_state).1.

(** A figure (0) with an axes (10), its labels (1 and 3) and a title
    (5); the axes and then the title were selected, and the widget is
    linked to the title. *)
Definition title_scene : Linkable.scene :=
  Linkable.mk_scene
    (fun n => match n with
              | 0 => Linkable.Figure
              | 10 => Linkable.Axes
              | 1 | 3 | 5 => Linkable.Text
              | _ => Linkable.Other
              end)
    (fun n => match n with 10 => Some 1 | _ => None end)
    (fun n => match n with 10 => Some 3 | _ => None end)
    (fun _ => 0)
    (fun _ => [10; 5]).

Definition title_state : @Linkable.state TextWidget.t string :=
  Linkable.mk_state
    (list_to_map
       [((1, "alpha"), "1.0"); ((3, "alpha"), "1.0"); ((5, "alpha"), "1.0");
        ((10, "alpha"), "1.0")])
    ∅ (Some 5) (TextWidget.mk false None false "0.5" 0) true true [] [] [].

End MoreExamples.

(** * Properties *)

(** ** Strings *)

Lemma replace_nil old new : replace old new "" = "".
Proof. by simp replace. Qed.

Lemma replace_match old new c s :
  String.prefix old (String c s) = true ->
  replace old new (String c s)
  = new +:+ replace old new (string_drop (String.length old - 1) s).
Proof. intros Hp. simp replace. by rewrite Hp. Qed.

Lemma replace_skip old new c s :
  String.prefix old (String c s) = false ->
  replace old new (String c s) = String c (replace old new s).
Proof. intros Hp. simp replace. by rewrite Hp. Qed.

Lemma prefix_nil s : String.prefix "" s = true.
Proof. by destruct s. Qed.

Lemma prefix_head_same c old s :
  String.prefix (String c old) (String c s) = String.prefix old s.
Proof. simpl. by destruct (Ascii.ascii_dec c c). Qed.

Lemma prefix_head_differs c old d s :
  c <> d -> String.prefix (String c old) (String d s) = false.
Proof. intros Hne. simpl. by destruct (Ascii.ascii_dec c d). Qed.

(** ** [TextWidget] *)

Lemma escape_cons_newline s :
  replace TextWidget.newline TextWidget.backslash_n (String LF s)
  = String TextWidget.backslash
      (String TextWidget.letter_n
         (replace TextWidget.newline TextWidget.backslash_n s)).
Proof.
  rewrite replace_match; [done|].
  unfold TextWidget.newline. by rewrite prefix_head_same, prefix_nil.
Qed.

Lemma escape_cons_other c s :
  c <> LF ->
  replace TextWidget.newline TextWidget.backslash_n (String c s)
  = String c (replace TextWidget.newline TextWidget.backslash_n s).
Proof.
  intros Hne. apply replace_skip. unfold TextWidget.newline.
  by apply prefix_head_differs.
Qed.




(** The code escapes and unescapes as the claim words it. *)
Lemma replace_is_escape s :
  replace TextWidget.newline TextWidget.backslash_n s = TextWidget.escape s.
Proof.
  induction s as [|c s IH]; [by rewrite replace_nil|].
  cbn [TextWidget.escape].
  destruct (Nat.eqb_spec (Ascii.nat_of_ascii c) 10) as [Hc|Hc].
  - assert (c = LF) as ->.
    { rewrite <- (Ascii.ascii_nat_embedding c), Hc. reflexivity. }
    by rewrite escape_cons_newline, IH.
  - rewrite escape_cons_other, IH; [done|]. by intros ->.
Qed.



Definition two_line_text : string := "top" +:+ TextWidget.newline +:+ "bottom".



(** The restriction to strings without a backslash is needed: a
    backslash and the letter n typed by the user come back as a line
    feed. *)
Example text_of_typed_escape :
  TextWidget.text
    (TextWidget.setText (TextWidget.mk false None false "" 0)
       TextWidget.backslash_n false)
  = TextWidget.newline.
Proof. reflexivity. Qed.

(** ** [FreeNumberInput] *)

Section FreeNumberInputFacts.
Variable F : Type.
Variable float : string -> res F.

(** C9. [value()] returns the float parsed from the text, or else the
    float parsed from the text with every comma replaced by a point, or
    else [None]; it raises on no text, given that [float] itself raises
    nothing but [ValueError] on a string. *)
Theorem value_total (text : string) :
  (forall s e, float s = Raise e -> e = ValueError) ->
  FreeNumberInput.value F float text
  = Ok (match float text with
        | Ok f => Some f
        | Raise _ =>
            match float (replace "," "." text) with
            | Ok f => Some f
            | Raise _ => None
            end
        end).
Proof.
  intros Hfloat. unfold FreeNumberInput.value.
  destruct (float text) as [f|e] eqn:E1; [done|].
  rewrite (Hfloat _ _ E1).
  destruct (float (replace "," "." text)) as [f|e'] eqn:E2; [done|].
  by rewrite (Hfloat _ _ E2).
Qed.

End FreeNumberInputFacts.

Lemma value_total_witness :
  (forall s e, Toy.float s = Raise e -> e = ValueError)
  /\ FreeNumberInput.value string Toy.float "1,5" = Ok (Some "1.5").
Proof.
  assert (Hfloat : forall s e, Toy.float s = Raise e -> e = ValueError).
  { intros s e. unfold Toy.float. destruct (Toy.is_decimal false s); congruence. }
  split; [exact Hfloat|].
  rewrite (value_total string Toy.float "1,5" Hfloat). reflexivity.
Defined.

(** ** Reasoning about code that mutates a state *)

Lemma bind_run {S A B : Type} (m : M S A) (k : A -> M S B) (s : S) :
  (m ≫= k) s
  = match m s with
    | (s', Ok a) => k a s'
    | (s', Raise e) => (s', Raise e)
    end.
Proof. reflexivity. Qed.

Lemma ret_run {S A : Type} (a : A) (s : S) : (mret a : M S A) s = (s, Ok a).
Proof. reflexivity. Qed.

Lemma modify_run {S : Type} (f : S -> S) (s : S) : modify f s = (f s, Ok tt).
Proof. reflexivity. Qed.

Lemma gets_run {S A : Type} (f : S -> A) (s : S) : gets f s = (s, Ok (f s)).
Proof. reflexivity. Qed.

Lemma get_run {S : Type} (s : S) : get s = (s, Ok s).
Proof. reflexivity. Qed.

Lemma raise_run {S A : Type} (e : exn) (s : S) :
  raise (A := A) e s = (s, Raise e).
Proof. reflexivity. Qed.

Lemma lift_run {S A : Type} (r : res A) (s : S) : lift r s = (s, r).
Proof. reflexivity. Qed.

Section Preserves.
Context {S : Type} (R : relation S) `{!PreOrder R}.

(** Every run of [m] ends in a state related to the one it started in. *)
Definition preserves {A : Type} (m : M S A) : Prop :=
  forall s, R s (m s).1.

Lemma preserves_ret {A : Type} (a : A) : preserves (mret a).
Proof. intros s. simpl. reflexivity. Qed.

Lemma preserves_raise {A : Type} (e : exn) : preserves (raise (A := A) e).
Proof. intros s. simpl. reflexivity. Qed.

Lemma preserves_lift {A : Type} (r : res A) : preserves (lift r).
Proof. intros s. simpl. reflexivity. Qed.

Lemma preserves_get : preserves get.
Proof. intros s. simpl. reflexivity. Qed.

Lemma preserves_gets {A : Type} (f : S -> A) : preserves (gets f).
Proof. intros s. simpl. reflexivity. Qed.

Lemma preserves_modify (f : S -> S) :
  (forall s, R s (f s)) -> preserves (modify f).
Proof. intros Hf s. simpl. apply Hf. Qed.

Lemma preserves_bind {A B : Type} (m : M S A) (k : A -> M S B) :
  preserves m -> (forall a, preserves (k a)) -> preserves (m ≫= k).
Proof.
  intros Hm Hk s. rewrite bind_run. specialize (Hm s).
  destruct (m s) as [s' [a|e]]; simpl in *; [|done].
  etrans; [exact Hm|apply Hk].
Qed.

Lemma preserves_for_each {A : Type} (body : A -> M S unit) (xs : list A) :
  (forall x, preserves (body x)) -> preserves (for_each body xs).
Proof.
  intros Hbody. induction xs as [|x xs IH]; simpl.
  - apply preserves_ret.
  - apply preserves_bind; [apply Hbody|]. intros _. exact IH.
Qed.

Lemma preserves_try_except {A : Type} (body handler : M S A) (exc : exn) :
  preserves body -> preserves handler -> preserves (try_except body exc handler).
Proof.
  intros Hb Hh s. unfold try_except. specialize (Hb s).
  destruct (body s) as [s' [a|e]]; simpl in *; [done|].
  destruct (decide (e = exc)); [|done].
  etrans; [exact Hb|apply Hh].
Qed.

Lemma preserves_try_finally {A : Type} (body : M S A) (fin : S -> S) :
  preserves body -> (forall s, R s (fin s)) -> preserves (try_finally body fin).
Proof.
  intros Hb Hf s. unfold try_finally. specialize (Hb s).
  destruct (body s) as [s' r]; simpl in *.
  etrans; [exact Hb|apply Hf].
Qed.

Lemma preserves_run_slot (slot : M S unit) :
  preserves slot -> preserves (Chooser.run_slot slot).
Proof. intros Hs s. unfold Chooser.run_slot. simpl. apply Hs. Qed.

Lemma preserves_if {A : Type} (b : bool) (m1 m2 : M S A) :
  preserves m1 -> preserves m2 -> preserves (if b then m1 else m2).
Proof. by destruct b. Qed.

End Preserves.

(** Weakest preconditions: [wp m Q s] says that the run of [m] from
    [s] ends in a state and an outcome that satisfy [Q]. *)
Definition wp {S A : Type} (m : M S A) (Q : S -> res A -> Prop) (s : S) : Prop :=
  Q (m s).1 (m s).2.

Lemma wp_run {S A : Type} (m : M S A) (Q : S -> res A -> Prop) (s s' : S) r :
  m s = (s', r) -> wp m Q s -> Q s' r.
Proof. unfold wp. by intros ->. Qed.

Lemma wp_mono {S A : Type} (m : M S A) (Q1 Q2 : S -> res A -> Prop) (s : S) :
  wp m Q1 s -> (forall s' r, Q1 s' r -> Q2 s' r) -> wp m Q2 s.
Proof. unfold wp. auto. Qed.

Lemma wp_ret {S A : Type} (a : A) (Q : S -> res A -> Prop) (s : S) :
  Q s (Ok a) -> wp (mret a) Q s.
Proof. done. Qed.

Lemma wp_raise {S A : Type} (e : exn) (Q : S -> res A -> Prop) (s : S) :
  Q s (Raise e) -> wp (raise e) Q s.
Proof. done. Qed.

Lemma wp_lift {S A : Type} (r : res A) (Q : S -> res A -> Prop) (s : S) :
  Q s r -> wp (lift r) Q s.
Proof. done. Qed.

Lemma wp_get {S : Type} (Q : S -> res S -> Prop) (s : S) :
  Q s (Ok s) -> wp get Q s.
Proof. done. Qed.

Lemma wp_gets {S A : Type} (f : S -> A) (Q : S -> res A -> Prop) (s : S) :
  Q s (Ok (f s)) -> wp (gets f) Q s.
Proof. done. Qed.

Lemma wp_modify {S : Type} (f : S -> S) (Q : S -> res unit -> Prop) (s : S) :
  Q (f s) (Ok tt) -> wp (modify f) Q s.
Proof. done. Qed.

Lemma wp_bind {S A B : Type} (m : M S A) (k : A -> M S B)
  (Q : S -> res B -> Prop) (s : S) :
  wp m (fun s' r => match r with
                    | Ok a => wp (k a) Q s'
                    | Raise e => Q s' (Raise e)
                    end) s ->
  wp (m ≫= k) Q s.
Proof.
  unfold wp. rewrite bind_run. by destruct (m s) as [s' [a|e]].
Qed.

Lemma wp_try_except {S A : Type} (body handler : M S A) (exc : exn)
  (Q : S -> res A -> Prop) (s : S) :
  wp body (fun s' r => match r with
                       | Ok a => Q s' (Ok a)
                       | Raise e => if decide (e = exc) then wp handler Q s'
                                    else Q s' (Raise e)
                       end) s ->
  wp (try_except body exc handler) Q s.
Proof.
  unfold wp, try_except. destruct (body s) as [s' [a|e]]; simpl; [done|].
  by destruct (decide (e = exc)).
Qed.

Lemma wp_try_finally {S A : Type} (body : M S A) (fin : S -> S)
  (Q : S -> res A -> Prop) (s : S) :
  wp body (fun s' r => Q (fin s') r) s -> wp (try_finally body fin) Q s.
Proof. unfold wp, try_finally. by destruct (body s). Qed.

Lemma wp_run_slot {S : Type} (slot : M S unit) (Q : S -> res unit -> Prop)
  (s : S) :
  wp slot (fun s' _ => Q s' (Ok tt)) s -> wp (Chooser.run_slot slot) Q s.
Proof. done. Qed.

(** A loop keeps an invariant that holds again after each round that
    ends well, and implies the wanted end for a round that raises. *)
Lemma wp_for_each {S A : Type} (body : A -> M S unit) (xs : list A)
  (I : S -> Prop) (Q : S -> res unit -> Prop) (s : S) :
  I s ->
  (forall x s, x ∈ xs -> I s ->
     wp (body x) (fun s' r => match r with
                              | Ok _ => I s'
                              | Raise e => Q s' (Raise e)
                              end) s) ->
  (forall s, I s -> Q s (Ok tt)) ->
  wp (for_each body xs) Q s.
Proof.
  intros HI Hbody Hend. revert s HI.
  induction xs as [|x xs IH]; intros s HI; simpl.
  - apply wp_ret. by apply Hend.
  - apply wp_bind. eapply wp_mono.
    + apply Hbody; [by left|done].
    + intros s' [[]|e] Hr; [|done].
      apply IH; [|done]. intros y s0 Hy. apply Hbody. by right.
Qed.

Lemma preserves_wp {S A : Type} (R : relation S) (m : M S A) (s : S) :
  preserves R m -> wp m (fun s' _ => R s s') s.
Proof. intros Hm. apply Hm. Qed.

Ltac wp_step :=
  cbv beta iota;
  lazymatch goal with
  | |- wp (mret _) _ _ => apply wp_ret
  | |- wp (raise _) _ _ => apply wp_raise
  | |- wp (lift _) _ _ => apply wp_lift
  | |- wp get _ _ => apply wp_get
  | |- wp (gets _) _ _ => apply wp_gets
  | |- wp (modify _) _ _ => apply wp_modify
  | |- wp (_ ≫= _) _ _ => apply wp_bind
  | |- wp (try_except _ _ _) _ _ => apply wp_try_except
  | |- wp (try_finally _ _) _ _ => apply wp_try_finally
  | |- wp (Chooser.run_slot _) _ _ => apply wp_run_slot
  end.

Ltac preserves_step :=
  cbv beta iota;
  lazymatch goal with
  | |- preserves ?R (mret _) => apply (preserves_ret R)
  | |- preserves ?R (raise _) => apply (preserves_raise R)
  | |- preserves ?R (lift _) => apply (preserves_lift R)
  | |- preserves ?R get => apply (preserves_get R)
  | |- preserves ?R (gets _) => apply (preserves_gets R)
  | |- preserves ?R (_ ≫= _) => apply (preserves_bind R); [|intros ?]
  | |- preserves ?R (for_each _ _) => apply (preserves_for_each R); intros ?
  | |- preserves ?R (try_finally _ _) => apply (preserves_try_finally R)
  | |- preserves ?R (try_except _ _ _) => apply (preserves_try_except R)
  | |- preserves ?R (Chooser.run_slot _) => apply (preserves_run_slot R)
  | |- preserves ?R (modify _) => apply (preserves_modify R); intros ?
  end.

(** ** The colour buttons *)

Section ChooserFrame.
Context {mpl : Interface} {builtins : Builtins} {toolkit : Toolkit}.
Import ColorGraph Chooser.

(** Relations between the states before and after a run that leave a
    part of the chooser alone: they are kept by every update of
    another field. *)
Class Frame (R : relation chooser) : Prop := {
  frame_preorder :: PreOrder R;
  frame_fig : forall f w, R w (with_fig f w);
  frame_color_keys : forall k w, R w (with_color_keys k w);
  frame_color_buttons : forall d w, R w (with_color_buttons d w);
  frame_color_buttons_list : forall l w, R w (with_color_buttons_list l w);
  frame_layout_colors : forall l w, R w (with_layout_colors l w);
  frame_last_save_folder : forall p w, R w (with_last_save_folder p w);
  frame_files : forall f w, R w (with_files f w);
  frame_draws : forall n w, R w (with_draws n w);
  frame_trigger : forall b w, R w (with_trigger_no_update b w);
  frame_new_button : forall b w, R w (with_buttons (buttons w ++ [b]) w)
}.

Section WithFrame.
Context (R : relation chooser) `{!Frame R}.

Lemma preserves_on_figure {A : Type} (m : M fstate A) :
  preserves R (on_figure m).
Proof.
  intros w. unfold on_figure. destruct (m (fig w)) as [f r]. simpl.
  apply frame_fig.
Qed.

Lemma preserves_attribute {A : Type} (f : chooser -> option A) :
  preserves R (attribute f).
Proof. intros w. unfold attribute. destruct (f w); simpl; reflexivity. Qed.

Lemma preserves_attribute_or {A : Type} (e : exn) (f : chooser -> option A) :
  preserves R (attribute_or e f).
Proof. intros w. unfold attribute_or. destruct (f w); simpl; reflexivity. Qed.

End WithFrame.

End ChooserFrame.

Ltac frame_leaf :=
  first
    [ apply frame_fig | apply frame_color_keys | apply frame_color_buttons
    | apply frame_color_buttons_list | apply frame_layout_colors
    | apply frame_last_save_folder | apply frame_files | apply frame_draws
    | apply frame_trigger | apply frame_new_button ].

Ltac chooser_step :=
  cbv beta iota;
  lazymatch goal with
  | |- preserves ?R (Chooser.on_figure _) => apply (preserves_on_figure R)
  | |- preserves ?R (Chooser.attribute _) => apply (preserves_attribute R)
  | |- preserves ?R (Chooser.attribute_or _ _) =>
      apply (preserves_attribute_or R)
  | |- preserves _ _ => preserves_step
  | |- _ => frame_leaf
  end.

Section ChooserSlots.
Context {mpl : Interface} {builtins : Builtins} {toolkit : Toolkit}.
Import ColorGraph Chooser.

Section WithFrame.
Context (R : relation chooser) `{!Frame R}.

Lemma preserves_addColorButton color basecolor :
  preserves R (addColorButton color basecolor).
Proof.
  unfold addColorButton.
  repeat chooser_step.
  - destruct color as [s|c]; [|chooser_step].
    destruct (to_hex (of_str s)) as [h|[]]; chooser_step.
  - destruct basecolor as [base|]; [|chooser_step].
    destruct (truthy (Some base)); repeat chooser_step.
Qed.

Lemma preserves_color_selected new_color color_base :
  preserves R (color_selected new_color color_base).
Proof.
  unfold color_selected. destruct color_base as [base|]; repeat chooser_step.
Qed.

Lemma preserves_updateColors :
  (forall t w, R w (with_colors_text t w)) -> preserves R updateColors.
Proof.
  intros Htext. unfold updateColors. repeat chooser_step.
  - apply preserves_addColorButton.
  - apply Htext.
Qed.

Lemma preserves_colorChanged c color_base :
  (forall t w, R w (with_colors_text t w)) ->
  (forall n w, R w (with_swap_counter n w)) ->
  preserves R (colorChanged c color_base).
Proof.
  intros Htext Hcount. unfold colorChanged. repeat chooser_step.
  - apply preserves_color_selected.
  - apply Hcount.
  - destruct (decide (a1 = 2)); repeat chooser_step.
    + apply Hcount.
    + by apply preserves_updateColors.
Qed.

End WithFrame.

(** The buttons that exist stay as they are; new ones may be added. *)
Definition buttons_kept (w w' : chooser) : Prop :=
  buttons w `prefix_of` buttons w'.

#[local] Instance buttons_kept_frame : Frame buttons_kept.
Proof.
  split; try (intros; unfold buttons_kept; by simpl).
  - split.
    + intros w. unfold buttons_kept. done.
    + intros w1 w2 w3. unfold buttons_kept. by etrans.
  - intros b w. unfold buttons_kept. simpl. by apply prefix_app_r.
Qed.

Lemma buttons_kept_text t w : buttons_kept w (with_colors_text t w).
Proof. unfold buttons_kept. done. Qed.

Lemma buttons_kept_counter n w : buttons_kept w (with_swap_counter n w).
Proof. unfold buttons_kept. done. Qed.

(** [setColor] gives the button its new colour and, through the slot
    it runs, changes the colour of no other button. *)
Lemma setColor_spec w wid value b :
  buttons w !! wid = Some b ->
  exists w',
    setColor wid value w = (w', Ok tt)
    /\ color_of w' wid = Some value
    /\ forall j c, j <> wid -> color_of w j = Some c -> color_of w' j = Some c.
Proof.
  intros Hb. unfold setColor.
  rewrite bind_run. unfold attribute at 1. rewrite Hb.
  rewrite bind_run. cbn [modify].
  set (b1 := mk_button value value (b_styleSheet b) (b_basecolor b)).
  set (w1 := with_buttons (<[wid:=b1]> (buttons w)) w).
  rewrite bind_run. unfold run_slot at 1.
  pose proof (preserves_colorChanged buttons_kept value (b_basecolor b)
                buttons_kept_text buttons_kept_counter w1) as Hkept.
  set (w2 := (colorChanged value (b_basecolor b) w1).1) in *.
  assert (Hlt : wid < length (buttons w)) by (by eapply lookup_lt_Some).
  assert (H1 : buttons w1 !! wid = Some b1).
  { subst w1. simpl. by apply list_lookup_insert_eq. }
  assert (H2 : buttons w2 !! wid = Some b1).
  { by eapply prefix_lookup_Some. }
  rewrite bind_run. unfold attribute at 1. rewrite H2.
  cbn [modify].
  eexists. split; [reflexivity|]. split.
  - unfold color_of. simpl. rewrite list_lookup_insert_eq; [done|].
    by eapply lookup_lt_Some.
  - intros j c Hj Hc. unfold color_of in *. simpl.
    rewrite list_lookup_insert_ne by done.
    destruct (buttons w !! j) as [bj|] eqn:Ej; [|done].
    assert (buttons w1 !! j = Some bj).
    { subst w1. simpl. by rewrite list_lookup_insert_ne. }
    by erewrite prefix_lookup_Some.
Qed.

Lemma getColor_run w wid c :
  color_of w wid = Some c -> getColor wid w = (w, Ok c).
Proof.
  unfold getColor, attribute, color_of. intros ->. done.
Qed.

(** C6. When the colour button [source] is dropped onto another colour
    button [self], the two exchange their colours: after [dropEvent],
    [source] holds the colour [self] had and [self] holds the colour
    [source] had. *)
Theorem dropEvent_exchanges_colors w self source c_self c_source :
  self <> source ->
  color_of w self = Some c_self ->
  color_of w source = Some c_source ->
  exists w',
    dropEvent self source w = (w', Ok tt)
    /\ color_of w' source = Some c_self
    /\ color_of w' self = Some c_source.
Proof.
  intros Hne Hself Hsource. unfold dropEvent.
  rewrite bind_run, (getColor_run _ _ _ Hsource).
  rewrite bind_run, (getColor_run _ _ _ Hself).
  assert (exists b, buttons w !! source = Some b) as [b Hb].
  { unfold color_of in Hsource. destruct (buttons w !! source); [eauto|done]. }
  destruct (setColor_spec w source c_self b Hb) as (w1 & Hrun1 & Hs1 & Hothers1).
  rewrite bind_run, Hrun1.
  pose proof (Hothers1 self c_self Hne Hself) as Hself1.
  assert (exists b', buttons w1 !! self = Some b') as [b' Hb'].
  { unfold color_of in Hself1. destruct (buttons w1 !! self); [eauto|done]. }
  destruct (setColor_spec w1 self c_source b' Hb') as (w2 & Hrun2 & Hs2 & Hothers2).
  exists w2. split; [exact Hrun2|]. split; [|exact Hs2].
  apply Hothers2; [congruence|exact Hs1].
Qed.

End ChooserSlots.

Lemma dropEvent_exchanges_colors_witness :
  0 <> 1
  /\ Chooser.color_of Example.shown 0 = Some "#ff0000"
  /\ Chooser.color_of Example.shown 1 = Some "#00ff00"
  /\ exists w',
       Chooser.dropEvent 0 1 Example.shown = (w', Ok tt)
       /\ Chooser.color_of w' 1 = Some "#ff0000"
       /\ Chooser.color_of w' 0 = Some "#00ff00".
Proof.
  split; [lia|]. split; [reflexivity|]. split; [reflexivity|].
  apply (dropEvent_exchanges_colors Example.shown 0 1 "#ff0000" "#00ff00");
    [lia|reflexivity|reflexivity].
Defined.

Section SaveLoad.
Context {mpl : Interface} {builtins : Builtins} {toolkit : Toolkit}.
Import ColorGraph Chooser.

Lemma wp_attribute {A : Type} (f : chooser -> option A)
  (Q : chooser -> res A -> Prop) (w : chooser) :
  match f w with
  | Some a => Q w (Ok a)
  | None => Q w (Raise AttributeError)
  end ->
  wp (attribute f) Q w.
Proof. unfold wp, attribute. by destruct (f w). Qed.

Lemma wp_attribute_or {A : Type} (e : exn) (f : chooser -> option A)
  (Q : chooser -> res A -> Prop) (w : chooser) :
  match f w with
  | Some a => Q w (Ok a)
  | None => Q w (Raise e)
  end ->
  wp (attribute_or e f) Q w.
Proof. unfold wp, attribute_or. by destruct (f w). Qed.

(** Neither the text nor the swap counter changes. *)
Definition text_kept (w w' : chooser) : Prop :=
  colors_text w' = colors_text w /\ swap_counter w' = swap_counter w.

#[local] Instance text_kept_frame : Frame text_kept.
Proof.
  split; try (intros; by split).
  split.
  - intros w. by split.
  - intros w1 w2 w3 [? ?] [? ?]. split; congruence.
Qed.








End SaveLoad.




(** ** The colour catalogue *)

(** Induction over the artist tree, with the property for all children. *)
Fixpoint artist_tree_ind (P : artist -> Prop)
  (step : forall info children, Forall P children -> P (Artist info children))
  (a : artist) : P a :=
  match a with
  | Artist info children =>
      step info children
        ((fix all (cs : list artist) : Forall P cs :=
            match cs with
            | [] => List.Forall_nil P
            | c :: cs' =>
                List.Forall_cons P c cs' (artist_tree_ind P step c) (all cs')
            end) children)
  end.

Section Catalogue.
Context `{Interface}.
Import ColorGraph.

Lemma addChildren_unfold st info children :
  addChildren st (Artist info children) = for_each (visit st) children.
Proof.
  simpl. induction children as [|child children IH]; [done|].
  simpl. unfold visit at 1. by rewrite IH.
Qed.

Lemma cat_lookup_None k cat :
  k ∉ cat_keys cat -> cat_lookup k cat = None.
Proof.
  induction cat as [|[k' es] cat IH]; [done|]. simpl. intros Hk.
  destruct (decide (k' = k)) as [->|Hne].
  - exfalso. apply Hk. by left.
  - apply IH. intros Hin. apply Hk. by right.
Qed.

Lemma cat_lookup_Some k cat es :
  cat_lookup k cat = Some es -> k ∈ cat_keys cat.
Proof.
  induction cat as [|[k' es'] cat IH]; [done|]. simpl.
  destruct (decide (k' = k)) as [->|Hne]; intros Hl.
  - by left.
  - right. by apply IH.
Qed.

Lemma cat_lookup_is_Some k cat :
  k ∈ cat_keys cat -> is_Some (cat_lookup k cat).
Proof.
  intros Hin. destruct (cat_lookup k cat) eqn:El; [done|].
  exfalso. induction cat as [|[k' es] cat IH]; [by inversion Hin|].
  simpl in El. destruct (decide (k' = k)); [done|].
  unfold cat_keys in Hin. rewrite fmap_cons in Hin.
  apply elem_of_cons in Hin as [Heq|Hin]; [done|]. by apply IH.
Qed.

Lemma cat_lookup_new k e k' cat :
  cat_lookup k' (cat ++ [(k, [e])])
  = match cat_lookup k' cat with
    | Some es => Some es
    | None => if decide (k = k') then Some [e] else None
    end.
Proof.
  induction cat as [|[k0 es0] cat IH]; simpl; [done|].
  by destruct (decide (k0 = k')).
Qed.

Lemma cat_lookup_update k e k' cat :
  cat_lookup k'
    ((fun kv : key * list entry =>
        if decide (kv.1 = k) then (kv.1, kv.2 ++ [e]) else kv) <$> cat)
  = if decide (k' = k) then (fun es => es ++ [e]) <$> cat_lookup k' cat
    else cat_lookup k' cat.
Proof.
  induction cat as [|[k0 es0] cat IH].
  - simpl. by destruct (decide (k' = k)).
  - rewrite fmap_cons. cbn [fst snd].
    destruct (decide (k0 = k)) as [->|Hne]; cbn [cat_lookup].
    + destruct (decide (k = k')) as [->|Hne'].
      * by rewrite decide_True.
      * rewrite IH. done.
    + destruct (decide (k0 = k')) as [->|Hne'].
      * by rewrite decide_False.
      * by rewrite IH.
Qed.

Lemma listed_cat_append k e cat k' e' :
  listed (cat_append k e cat) k' e'
  <-> listed cat k' e' \/ (k' = k /\ e' = e).
Proof.
  unfold listed, cat_append. destruct (decide (k ∈ cat_keys cat)) as [Hin|Hout].
  - rewrite cat_lookup_update. destruct (decide (k' = k)) as [->|Hne].
    + destruct (cat_lookup k cat) as [es|] eqn:El; simpl.
      * split.
        -- intros (es' & [= <-] & He). apply elem_of_app in He as [He|He].
           ++ left. eauto.
           ++ right. apply list_elem_of_singleton in He. done.
        -- intros [(es' & [= <-] & He)|[_ ->]];
             (eexists; split; [done|]); apply elem_of_app; [by left|right].
           by apply list_elem_of_singleton.
      * apply cat_lookup_is_Some in Hin as [es Hes]. congruence.
    + split; [by left|]. intros [?|[? _]]; done.
  - rewrite cat_lookup_new. destruct (cat_lookup k' cat) as [es|] eqn:El.
    + split; [by left|]. intros [?|[-> ->]]; [done|].
      exfalso. apply Hout. by eapply cat_lookup_Some.
    + destruct (decide (k = k')) as [->|Hne].
      * split.
        -- intros (es' & [= <-] & He). right.
           apply list_elem_of_singleton in He. done.
        -- intros [(es' & ? & _)|[_ ->]]; [done|].
           eexists. split; [done|]. by apply list_elem_of_singleton.
      * split; [by intros (? & ? & ?)|]. intros [(? & ? & ?)|[-> _]]; done.
Qed.

(** [m] lists nothing but what satisfies [P]. *)
Definition only_adds (P : key -> entry -> Prop) (m : M catalog unit) : Prop :=
  forall cat,
    wp m (fun cat' _ => forall k e, listed cat' k e -> listed cat k e \/ P k e)
      cat.

(** [m] keeps what is listed and, when it ends well, has listed
    everything that satisfies [N]. *)
Definition adds (N : key -> entry -> Prop) (m : M catalog unit) : Prop :=
  forall cat,
    wp m (fun cat' r =>
            (forall k e, listed cat k e -> listed cat' k e)
            /\ (r = Ok tt -> forall k e, N k e -> listed cat' k e))
      cat.

Lemma only_adds_ret P : only_adds P (mret tt).
Proof. intros cat. wp_step. auto. Qed.

Lemma only_adds_raise P e : only_adds P (raise e).
Proof. intros cat. wp_step. auto. Qed.

Lemma only_adds_append (P : key -> entry -> Prop) k e :
  P k e -> only_adds P (modify (cat_append k e)).
Proof.
  intros HP cat. wp_step. intros k' e' Hl.
  apply listed_cat_append in Hl as [Hl|[-> ->]]; auto.
Qed.

Lemma only_adds_seq P (m1 m2 : M catalog unit) :
  only_adds P m1 -> only_adds P m2 -> only_adds P (m1 ;; m2).
Proof.
  intros H1 H2 cat. wp_step. eapply wp_mono; [apply H1|].
  intros cat1 [[]|e] Hcat1; cbv beta; [|done].
  eapply wp_mono; [apply H2|]. intros cat2 r Hcat2 k e Hl. cbv beta in *.
  destruct (Hcat2 k e Hl) as [Hl1|HP]; auto.
Qed.

Lemma only_adds_for_each {A : Type} P (body : A -> M catalog unit) xs :
  (forall x, x ∈ xs -> only_adds P (body x)) -> only_adds P (for_each body xs).
Proof.
  induction xs as [|x xs IH]; intros Hbody; simpl.
  - apply only_adds_ret.
  - apply only_adds_seq.
    + apply Hbody. by left.
    + apply IH. intros y Hy. apply Hbody. by right.
Qed.

Lemma adds_weaken (N N' : key -> entry -> Prop) m :
  adds N m -> (forall k e, N' k e -> N k e) -> adds N' m.
Proof.
  intros Hm HN cat. eapply wp_mono; [apply Hm|].
  intros cat' r [Hmono Hadd]. split; [done|]. intros Hr k e HN'.
  apply Hadd; auto.
Qed.

Lemma adds_ret : adds (fun _ _ => False) (mret tt).
Proof. intros cat. wp_step. split; [auto|]. by intros _ k e []. Qed.

Lemma adds_raise N e : adds N (raise e).
Proof. intros cat. wp_step. split; [auto|]. done. Qed.

Lemma adds_append k e :
  adds (fun k' e' => k' = k /\ e' = e) (modify (cat_append k e)).
Proof.
  intros cat. wp_step. split.
  - intros k' e' Hl. apply listed_cat_append. by left.
  - intros _ k' e' [-> ->]. apply listed_cat_append. by right.
Qed.

Lemma adds_seq N1 N2 (m1 m2 : M catalog unit) :
  adds N1 m1 -> adds N2 m2 ->
  adds (fun k e => N1 k e \/ N2 k e) (m1 ;; m2).
Proof.
  intros H1 H2 cat. wp_step. eapply wp_mono; [apply H1|].
  intros cat1 [[]|e] [Hmono1 Hadd1]; cbv beta.
  - eapply wp_mono; [apply H2|]. intros cat2 r [Hmono2 Hadd2]. split.
    + auto.
    + intros Hr k e [HN|HN]; [|by apply Hadd2]. apply Hmono2. by apply Hadd1.
  - split; [done|]. done.
Qed.

Lemma adds_for_each {A : Type} (N : A -> key -> entry -> Prop)
  (body : A -> M catalog unit) xs :
  (forall x, x ∈ xs -> adds (N x) (body x)) ->
  adds (fun k e => exists x, x ∈ xs /\ N x k e) (for_each body xs).
Proof.
  induction xs as [|x xs IH]; intros Hbody; simpl.
  - eapply adds_weaken; [apply adds_ret|]. intros k e (x & Hx & _).
    by inversion Hx.
  - eapply adds_weaken.
    + apply adds_seq.
      * apply Hbody. by left.
      * apply IH. intros y Hy. apply Hbody. by right.
    + intros k e (y & Hy & HN). apply elem_of_cons in Hy as [->|Hy].
      * by left.
      * right. eauto.
Qed.


(** What may be listed, given the artists [Ra] the walk comes to: an
    entry of such an artist and of one of the five colour types, and,
    when it has no colormap, one for a colour of its own of the artist. *)
Definition justified (st : fstate) (Ra : ainfo -> Prop) (k : key) (e : entry)
  : Prop :=
  Ra (e_artist e)
  /\ e_type e ∈ color_type_names
  /\ (e_link e = None ->
      exists h c, k = KStr h
        /\ c ∈ colors_of st (e_artist e) (e_type e) /\ plain_color c h).

Section Walk.
Variable st : fstate.

Lemma add_cmap_colors_only_adds Ra t a value cm index cols :
  Ra a -> t ∈ color_type_names ->
  only_adds (justified st Ra) (add_cmap_colors t a value cm index cols).
Proof.
  intros HRa Ht. revert index.
  induction cols as [|col cols IH]; intros index; simpl.
  - apply only_adds_ret.
  - intros cat. wp_step. wp_step.
    destruct (to_hex col) as [h|e]; [|auto].
    apply only_adds_seq; [|apply IH].
    apply only_adds_append. split; [done|]. split; [done|]. by intros [=].
Qed.

Lemma add_cmap_colors_adds t a value cm index cols :
  adds (fun _ _ => False) (add_cmap_colors t a value cm index cols).
Proof.
  revert index. induction cols as [|col cols IH]; intros index; simpl.
  - apply adds_ret.
  - intros cat. wp_step. wp_step.
    destruct (to_hex col) as [h|e]; [|by split].
    eapply adds_weaken; [apply adds_seq; [apply adds_append|apply IH]|].
    by intros k e [].
Qed.

Lemma add_color_only_adds Ra t a c :
  Ra a -> t ∈ color_type_names -> c ∈ colors_of st a t ->
  only_adds (justified st Ra) (add_color st t a c).
Proof.
  intros HRa Ht Hc. unfold add_color.
  destruct (to_hex c) as [h|e] eqn:Eh.
  2:{ destruct e; first [apply only_adds_ret|apply only_adds_raise]. }
  destruct (decide (h = black \/ h = white)) as [Hbw|Hbw];
    [apply only_adds_ret|].
  destruct (cmap_of c) as [[cm value]|] eqn:Ecm.
  - destruct (cm_get_color (cms st) cm) as [cols|].
    + by apply add_cmap_colors_only_adds.
    + apply only_adds_append. split; [done|]. split; [done|]. by intros [=].
  - destruct (alpha_zero c) eqn:Ea; [apply only_adds_ret|].
    apply only_adds_append. repeat split; [done..|]. intros _.
    exists h, c. repeat split; try done; intros ->; apply Hbw; auto.
Qed.

Lemma add_color_adds t a c :
  adds (fun k e => exists h, plain_color c h
                            /\ k = KStr h /\ e = mk_entry t a None)
    (add_color st t a c).
Proof.
  unfold add_color.
  assert (Hnone : forall m : M catalog unit,
            adds (fun _ _ => False) m ->
            (forall h, ~ plain_color c h) ->
            adds (fun k e => exists h, plain_color c h
                                      /\ k = KStr h /\ e = mk_entry t a None) m).
  { intros m Hm Hno. eapply adds_weaken; [exact Hm|].
    intros k e (h & Hp & _). by apply (Hno h). }
  destruct (to_hex c) as [h|e] eqn:Eh.
  2:{ destruct e; first [apply adds_raise|apply Hnone; [apply adds_ret|]];
        intros h (Hh & _); congruence. }
  destruct (decide (h = black \/ h = white)) as [Hbw|Hbw].
  { apply Hnone; [apply adds_ret|]. intros h' (Hh & Hb & Hw & _).
    assert (h' = h) as -> by congruence. tauto. }
  destruct (cmap_of c) as [[cm value]|] eqn:Ecm.
  - apply Hnone; [|intros h' (_ & _ & _ & ? & _); congruence].
    destruct (cm_get_color (cms st) cm) as [cols|].
    + apply add_cmap_colors_adds.
    + eapply adds_weaken; [apply adds_append|]. by intros k e [].
  - destruct (alpha_zero c) eqn:Ea.
    + apply Hnone; [apply adds_ret|].
      intros h' (_ & _ & _ & _ & ?); congruence.
    + eapply adds_weaken; [apply adds_append|].
      intros k e (h' & (Hh & _) & -> & ->).
      assert (h' = h) as -> by congruence. done.
Qed.

Lemma add_color_type_only_adds Ra a t :
  Ra a -> t ∈ color_type_names ->
  only_adds (justified st Ra) (add_color_type st a t).
Proof.
  intros HRa Ht. unfold add_color_type.
  destruct (colors_list (get_colors st a t)) as [cs|] eqn:Ecs;
    [|apply only_adds_ret].
  apply only_adds_for_each. intros c Hc. apply add_color_only_adds; try done.
  unfold colors_of. by rewrite Ecs.
Qed.

Lemma add_color_type_adds a t :
  adds (fun k e => exists c h, c ∈ colors_of st a t /\ plain_color c h
                              /\ k = KStr h /\ e = mk_entry t a None)
    (add_color_type st a t).
Proof.
  unfold add_color_type, colors_of.
  destruct (colors_list (get_colors st a t)) as [cs|]; simpl.
  - eapply adds_weaken.
    + apply adds_for_each. intros c _. apply add_color_adds.
    + intros k e (c & h & Hc & Hp & -> & ->). exists c. eauto.
  - eapply adds_weaken; [apply adds_ret|].
    intros k e (c & h & Hc & _). by inversion Hc.
Qed.

Lemma add_artist_colors_only_adds Ra a :
  Ra a -> only_adds (justified st Ra) (add_artist_colors st a).
Proof.
  intros HRa. apply only_adds_for_each. intros t Ht.
  by apply add_color_type_only_adds.
Qed.

Lemma add_artist_colors_adds a :
  adds (fun k e => exists t c h,
          t ∈ color_type_names /\ c ∈ colors_of st a t /\ plain_color c h
          /\ k = KStr h /\ e = mk_entry t a None)
    (add_artist_colors st a).
Proof.
  eapply adds_weaken.
  - apply adds_for_each. intros t _. apply add_color_type_adds.
  - intros k e (t & c & h & Ht & Hc & Hp & -> & ->). exists t. eauto 10.
Qed.

(** What the walk below [parent] lists for colours of their own. *)
Definition plain_below (parent : artist) (k : key) (e : entry) : Prop :=
  exists t a c h,
    reached parent a /\ t ∈ color_type_names /\ c ∈ colors_of st a t
    /\ plain_color c h /\ k = KStr h /\ e = mk_entry t a None.

Lemma addChildren_only_adds parent :
  forall Ra : ainfo -> Prop,
    (forall a, reached parent a -> Ra a) ->
    only_adds (justified st Ra) (addChildren st parent).
Proof.
  induction parent as [info children IH] using artist_tree_ind.
  intros Ra HRa. rewrite addChildren_unfold.
  apply only_adds_for_each. intros child Hchild. unfold visit.
  destruct (skipped (info_of child)) eqn:Eskip; [apply only_adds_ret|].
  apply only_adds_seq.
  - destruct (descends (info_of child)) eqn:Edesc; [|apply only_adds_ret].
    rewrite Forall_forall in IH. apply IH; [done|].
    intros a Ha. apply HRa. by eapply reached_below.
  - apply add_artist_colors_only_adds. apply HRa. by apply reached_child.
Qed.

Lemma addChildren_adds parent :
  adds (plain_below parent) (addChildren st parent).
Proof.
  induction parent as [info children IH] using artist_tree_ind.
  rewrite addChildren_unfold. rewrite Forall_forall in IH.
  eapply adds_weaken.
  - apply (adds_for_each
             (fun child k e =>
                skipped (info_of child) = false
                /\ ((descends (info_of child) = true /\ plain_below child k e)
                    \/ exists t c h,
                         t ∈ color_type_names
                         /\ c ∈ colors_of st (info_of child) t
                         /\ plain_color c h
                         /\ k = KStr h
                         /\ e = mk_entry t (info_of child) None))).
    intros child Hchild. unfold visit.
    destruct (skipped (info_of child)) eqn:Eskip.
    { eapply adds_weaken; [apply adds_ret|]. by intros k e [? _]. }
    eapply adds_weaken.
    + apply (adds_seq
               (fun k e => descends (info_of child) = true
                           /\ plain_below child k e));
        [|apply add_artist_colors_adds].
      destruct (descends (info_of child)) eqn:Edesc.
      * eapply adds_weaken; [by apply IH|]. by intros k e [_ ?].
      * eapply adds_weaken; [apply adds_ret|]. by intros k e [? _].
    + intros k e [_ [[Hd Hb]|Hown]]; [by left|by right].
  - intros k e (t & a & c & h & Hreach & Ht & Hc & Hp & -> & ->).
    inversion Hreach as [p child Hin Hskip|p child a' Hin Hskip Hdesc Hbelow];
      subst; simpl in Hin.
    + exists child. split; [done|]. split; [done|]. right. eauto 10.
    + exists child. split; [done|]. split; [done|]. left. split; [done|].
      exists t, a, c, h. eauto 10.
Qed.

End Walk.

Lemma reached_not_skipped parent a : reached parent a -> skipped a = false.
Proof. induction 1; done. Qed.

Lemma listed_nil k e : ~ listed [] k e.
Proof. by intros (es & ? & _). Qed.

Lemma figureListColors_run figure st :
  figureListColors figure st
  = (mk_fstate (props st) (cms st) (Some (addChildren st figure []).1)
       (changes st),
     (addChildren st figure []).2).
Proof. unfold figureListColors. by destruct (addChildren st figure []). Qed.

(** C4, as amended. [figureListColors] sets [figure.color_artists] to
    the dictionary that [addChildren] fills, starting from an empty
    one. The walk is not shallow: it visits the children of the
    figure and goes on, to any depth, below every visited artist that
    is neither a text nor a tick (an empty text or a [_no_save]
    artist is left out with all that is below it). For a colour of
    its own of an artist (no colormap), the entry (colour type,
    artist) is listed under the hex string [h] exactly when the walk
    comes to the artist and one of its colours of that type converts
    to [h], is neither black nor white and is not transparent. *)
Theorem figureListColors_walks_tree (figure : artist) (st st' : fstate) :
  figureListColors figure st = (st', Ok tt) ->
  exists cat,
    color_artists st' = Some cat
    /\ addChildren st figure [] = (cat, Ok tt)
    /\ forall t a h,
         listed cat (KStr h) (mk_entry t a None)
         <-> (reached figure a /\ t ∈ color_type_names
              /\ exists c, c ∈ colors_of st a t /\ plain_color c h).
Proof.
  rewrite figureListColors_run. intros [= <- Hok].
  exists (addChildren st figure []).1. split; [done|]. split.
  { rewrite <- Hok. by destruct (addChildren st figure []). }
  intros t a h. split.
  - intros Hl.
    pose proof (addChildren_only_adds st figure (reached figure)
                  ltac:(auto) [] _ _ Hl) as [Hnil|(Hr & Ht & Hown)].
    { by apply listed_nil in Hnil. }
    simpl in *. split; [done|]. split; [done|].
    destruct (Hown eq_refl) as (h' & c & [= <-] & Hc & Hp). eauto.
  - intros (Hr & Ht & c & Hc & Hp).
    destruct (addChildren_adds st figure []) as [_ Hadd].
    apply (Hadd Hok). exists t, a, c, h. eauto 10.
Qed.

(** C8, as amended. Every entry of the catalogue belongs to an artist
    that is neither a text without text nor flagged [_no_save]; an
    entry without colormap stands under the hex string of a colour
    of the artist that is neither black nor white and is not fully
    transparent. The colours of a colormap with [get_color] are
    listed as they are, black and white included. *)
Theorem catalogue_filters (figure : artist) (st : fstate) :
  exists cat,
    color_artists (figureListColors figure st).1 = Some cat
    /\ forall k e,
         listed cat k e ->
         ~ (a_kind (e_artist e) = Text /\ a_text (e_artist e) = "")
         /\ a_no_save (e_artist e) = false
         /\ (e_link e = None ->
             exists h c,
               k = KStr h
               /\ c ∈ colors_of st (e_artist e) (e_type e)
               /\ to_hex c = Ok h
               /\ h <> black /\ h <> white
               /\ alpha_zero c = false).
Proof.
  rewrite figureListColors_run. simpl. eexists. split; [done|].
  intros k e Hl.
  pose proof (addChildren_only_adds st figure (reached figure)
                ltac:(auto) [] _ _ Hl) as [Hnil|(Hr & Ht & Hown)].
  { by apply listed_nil in Hnil. }
  apply reached_not_skipped in Hr. unfold skipped in Hr.
  apply orb_false_iff in Hr as [Htext Hsave].
  apply bool_decide_eq_false in Htext.
  split; [done|]. split; [done|]. intros Hlink.
  destruct (Hown Hlink) as (h & c & -> & Hc & Hh & Hb & Hw & _ & Ha).
  exists h, c. done.
Qed.

End Catalogue.

Lemma figureListColors_walks_tree_witness :
  let st' := (ColorGraph.figureListColors Example.nested Example.nested_state).1 in
  ColorGraph.figureListColors Example.nested Example.nested_state = (st', Ok tt)
  /\ exists cat,
       ColorGraph.color_artists st' = Some cat
       /\ ColorGraph.addChildren Example.nested_state Example.nested []
          = (cat, Ok tt)
       /\ forall t a h,
            ColorGraph.listed cat (ColorGraph.KStr h)
              (ColorGraph.mk_entry t a None)
            <-> (ColorGraph.reached Example.nested a
                 /\ t ∈ ColorGraph.color_type_names
                 /\ exists c, c ∈ ColorGraph.colors_of Example.nested_state a t
                              /\ ColorGraph.plain_color c h).
Proof.
  cbv zeta.
  assert (Hrun :
    ColorGraph.figureListColors Example.nested Example.nested_state
    = ((ColorGraph.figureListColors Example.nested Example.nested_state).1,
       Ok tt)).
  { rewrite figureListColors_run. f_equal. }
  split; [exact Hrun|].
  exact (figureListColors_walks_tree _ _ _ Hrun).
Defined.

(** C4 as stated fails: the line is three levels below the figure and
    is listed. *)
Lemma deep_artist_is_listed :
  let st' := (ColorGraph.figureListColors Example.nested Example.nested_state).1 in
  ColorGraph.color_artists st'
  = Some [(ColorGraph.KStr "#ff0000",
           [ColorGraph.mk_entry "color" Example.deep_line None])]
  /\ Example.deep_line ∉ ColorGraph.within 1 Example.nested.
Proof.
  split; [reflexivity|].
  rewrite list_elem_of_In. simpl. intros [Heq|[Heq|[]]]; discriminate Heq.
Qed.

(** C8 as stated fails: the line takes its colour from an editable
    colormap made of red and black, and black is listed. *)
Lemma black_is_listed :
  let st' := (ColorGraph.figureListColors Example.mapped Example.mapped_state).1 in
  exists cat link,
    ColorGraph.color_artists st' = Some cat
    /\ ColorGraph.cat_lookup (ColorGraph.KStr ColorGraph.black) cat
       = Some [ColorGraph.mk_entry "color" Example.mapped_line (Some link)].
Proof.
  eexists _, _. split; reflexivity.
Qed.


(** ** The colour swap *)

Section Swap.
Context `{Interface}.
Import ColorGraph.









Lemma with_catalogue_present figure st cat :
  color_artists st = Some cat -> with_catalogue figure st = (st, Ok tt).
Proof. unfold with_catalogue. by intros ->. Qed.


End Swap.




(** ** Linked widgets *)

Section LinkFacts.
Import Linkable.
Context {W value : Type} `{Widget W value}.
Variable sc : scene.
Variable cfg : config.

Implicit Types (st : @state W value) (m : gmap (nat * string) value).
Implicit Types (ts rest elements : list nat).








Lemma with_props_same st : with_props (props st) st = st.
Proof. by destruct st. Qed.







Lemma captured_app m elems elems' :
  captured cfg m (elems ++ elems') = captured cfg m elems ++ captured cfg m elems'.
Proof. unfold captured. apply omap_app. Qed.
























End LinkFacts.







(** * Further properties of the widgets, the registry and the chooser *)

(** ** The combo box *)

Lemma index_lookup text vs :
  text ∈ vs -> exists n, ComboWidget.index text vs = Ok n /\ vs !! n = Some text.
Proof.
  induction vs as [|v vs IH]; intros Hin.
  - by apply elem_of_nil in Hin.
  - simpl. destruct (decide (v = text)) as [->|Hne].
    + by exists 0.
    + apply elem_of_cons in Hin as [->|Hin]; [done|].
      destruct (IH Hin) as (n & -> & Hn). by exists (S n).
Qed.

Lemma index_unknown text vs :
  text ∉ vs -> ComboWidget.index text vs = Raise ValueError.
Proof.
  induction vs as [|v vs IH]; intros Hin; [done|].
  simpl. apply not_elem_of_cons in Hin as [Hne Hin].
  destruct (decide (v = text)); [congruence|]. by rewrite IH.
Qed.

Lemma subscript_of_nat {A : Type} (l : list A) n x :
  l !! n = Some x -> ComboWidget.subscript l (Z.of_nat n) = Ok x.
Proof.
  intros Hn. unfold ComboWidget.subscript.
  destruct (Z.ltb_spec (Z.of_nat n) 0) as [?|_]; [lia|].
  destruct (Z.ltb_spec (Z.of_nat n) 0) as [?|_]; [lia|].
  by rewrite Nat2Z.id, Hn.
Qed.

(** While [noSignal] is set, a change of the selection is not reported. *)
Lemma setCurrentIndex_silent i w :
  ComboWidget.noSignal w = true ->
  ComboWidget.setCurrentIndex i w = (ComboWidget.with_currentIndex i w, Ok tt).
Proof.
  intros Hs. unfold ComboWidget.setCurrentIndex.
  rewrite bind_run, get_run.
  destruct (decide (ComboWidget.currentIndex w = i)) as [<-|Hne].
  - by destruct w.
  - rewrite bind_run, modify_run. unfold Chooser.run_slot.
    unfold ComboWidget.valueChangeEvent. rewrite bind_run, get_run.
    cbn [ComboWidget.noSignal ComboWidget.with_currentIndex]. by rewrite Hs.
Qed.

(** X1. For every text among the values of a combo widget, [setText]
    selects it: it returns, [text()] then gives the text back,
    [noSignal] is off again, and [editingFinished] is emitted once
    when [signal] is [True] and not at all otherwise, although the
    selection of the combo box may have changed. *)
Theorem combo_setText_text w text signal :
  text ∈ ComboWidget.values w ->
  exists w',
    ComboWidget.setText text signal w = (w', Ok tt)
    /\ ComboWidget.text w' = Ok text
    /\ ComboWidget.values w' = ComboWidget.values w
    /\ ComboWidget.noSignal w' = false
    /\ ComboWidget.emitted w'
       = if signal then S (ComboWidget.emitted w) else ComboWidget.emitted w.
Proof.
  intros Hin. destruct (index_lookup _ _ Hin) as (n & Hindex & Hn).
  unfold ComboWidget.setText.
  rewrite bind_run, modify_run, bind_run, get_run.
  cbn [ComboWidget.values ComboWidget.with_noSignal].
  rewrite Hindex, bind_run, lift_run, bind_run.
  rewrite setCurrentIndex_silent by done.
  rewrite bind_run, modify_run.
  destruct signal; rewrite ?modify_run, ?ret_run; eexists; (split; [reflexivity|]);
    cbn; unfold ComboWidget.text; cbn; by rewrite (subscript_of_nat _ _ _ Hn).
Qed.

(** X2. A text that is not among the values makes [setText] raise a
    [ValueError]: the selection stays, nothing is emitted, and
    [noSignal] is left on, so that a later change of the selection
    emits no [editingFinished] either. *)
Theorem combo_setText_unknown w text signal :
  text ∉ ComboWidget.values w ->
  exists w',
    ComboWidget.setText text signal w = (w', Raise ValueError)
    /\ ComboWidget.currentIndex w' = ComboWidget.currentIndex w
    /\ ComboWidget.emitted w' = ComboWidget.emitted w
    /\ ComboWidget.noSignal w' = true
    /\ forall i,
         ComboWidget.emitted (ComboWidget.setCurrentIndex i w').1
         = ComboWidget.emitted w.
Proof.
  intros Hin. unfold ComboWidget.setText.
  rewrite bind_run, modify_run, bind_run, get_run.
  cbn [ComboWidget.values ComboWidget.with_noSignal].
  rewrite (index_unknown _ _ Hin), bind_run, lift_run.
  eexists. split; [reflexivity|]. repeat split.
  intros i. by rewrite setCurrentIndex_silent.
Qed.

Lemma combo_setText_text_witness :
  ("dashed" ∈ ["solid"; "dashed"; "dotted"])
  /\ exists w',
       ComboWidget.setText "dashed" false
         (ComboWidget.mk ["solid"; "dashed"; "dotted"] 0 false 0)
       = (w', Ok tt)
       /\ ComboWidget.text w' = Ok "dashed".
Proof.
  assert (Hin : "dashed" ∈ ["solid"; "dashed"; "dotted"])
    by (apply list_elem_of_In; simpl; tauto).
  split; [exact Hin|].
  destruct (combo_setText_text
              (ComboWidget.mk ["solid"; "dashed"; "dotted"] 0 false 0)
              "dashed" false Hin) as (w' & Hrun & Htext & _).
  by exists w'.
Defined.

Lemma combo_setText_unknown_witness :
  ("dashdot" ∉ ["solid"; "dashed"; "dotted"])
  /\ exists w',
       ComboWidget.setText "dashdot" false
         (ComboWidget.mk ["solid"; "dashed"; "dotted"] 0 false 0)
       = (w', Raise ValueError)
       /\ ComboWidget.noSignal w' = true.
Proof.
  assert (Hin : "dashdot" ∉ ["solid"; "dashed"; "dotted"]).
  { rewrite list_elem_of_In. simpl. intros [?|[?|[?|[]]]]; discriminate. }
  split; [exact Hin|].
  destruct (combo_setText_unknown
              (ComboWidget.mk ["solid"; "dashed"; "dotted"] 0 false 0)
              "dashdot" false Hin) as (w' & Hrun & _ & _ & Hs & _).
  by exists w'.
Defined.

(** ** The free number input *)

Section FreeNumberInputWidgetFacts.
Variable F : Type.
Variable float : string -> res F.
Variable str : F -> string.
Variable accepts : option F -> res unit.

Import FreeNumberInputWidget.

(** While [send_signal] is off, setting the text reports nothing. *)
Lemma line_setText_silent s (w : t F) :
  send_signal F w = false ->
  line_setText F float accepts s w = (with_text F s w, Ok tt).
Proof.
  intros Hs. unfold line_setText.
  rewrite bind_run, get_run, bind_run, modify_run.
  destruct (decide (text F w = s)); [done|].
  unfold Chooser.run_slot, emitValueChanged.
  rewrite bind_run, get_run. cbn [send_signal with_text]. by rewrite Hs.
Qed.

(** X3. [setValue(value)] shows the value without reporting it: the
    line edit holds [str(value)] with the cursor at the start,
    [valueChanged] is not emitted, the style sheet is not touched, and
    [send_signal] is on afterwards; [value()] then returns the value
    again, provided [float] reads back what [str] wrote. *)
Theorem setValue_silent (w : t F) (v : F) :
  float (str v) = Ok v ->
  exists w',
    setValue F float str accepts v w = (w', Ok tt)
    /\ text F w' = str v
    /\ cursorPosition F w' = 0
    /\ send_signal F w' = true
    /\ valueChanged F w' = valueChanged F w
    /\ styleSheet F w' = styleSheet F w
    /\ value F float w' = Ok (Some v).
Proof.
  intros Hfloat. unfold setValue.
  rewrite bind_run, modify_run. unfold try_finally.
  rewrite bind_run, line_setText_silent by done.
  rewrite modify_run.
  eexists. split; [reflexivity|]. repeat split.
  unfold value, FreeNumberInput.value. cbn. by rewrite Hfloat.
Qed.

End FreeNumberInputWidgetFacts.

Lemma setValue_silent_witness :
  Toy.float "2.5" = Ok "2.5"
  /\ exists w',
       FreeNumberInputWidget.setValue string Toy.float id (fun _ => Ok tt) "2.5"
         (FreeNumberInputWidget.mk string "1,0" true "" 3 [])
       = (w', Ok tt)
       /\ FreeNumberInputWidget.value string Toy.float w' = Ok (Some "2.5")
       /\ FreeNumberInputWidget.valueChanged string w' = [].
Proof.
  split; [reflexivity|].
  destruct (setValue_silent string Toy.float id (fun _ => Ok tt)
              (FreeNumberInputWidget.mk string "1,0" true "" 3 [])
              "2.5" eq_refl)
    as (w' & Hrun & _ & _ & _ & Hsig & _ & Hvalue).
  exists w'. by repeat split.
Defined.

(** ** The text widget and its signal *)

Section TextWidgetEventsFacts.
Context {toolkit : Toolkit}.
Import TextWidget TextWidgetEvents.

(** X4. Provided the input of the widget holds the escaped text as it
    is given (the text edit does not take it for rich text, the line
    edit does not cut it), a text set by [setText] is not reported as
    an edit: the slot that a multi-line input runs during [setText]
    emits nothing, so that [setText] as a whole does what its
    statements say one by one, and a run of the slot while the input
    holds the text that was set emits nothing. A run of the slot
    while the input holds another text - every change by the user in
    a multi-line input, the end of an edit in a single-line input -
    emits [editingFinished] once. *)
Theorem setText_is_no_edit (w : t) (s typed : string) (signal : bool) :
  input1_holds (multiline w) (escape s) = escape s ->
  let w' := setText w s signal in
  setText_steps w s signal = w'
  /\ input1 w' = escape s
  /\ valueChangeEvent w' = w'
  /\ emitted (slot_run typed w')
     = if decide (typed = escape s) then emitted w' else S (emitted w').
Proof.
  intros Hheld w'.
  assert (Hw : w' = mk false (Some (escape s)) (multiline w) (escape s)
                      (if signal then S (emitted w) else emitted w)).
  { subst w'. unfold setText. by rewrite replace_is_escape, Hheld. }
  split; [|rewrite Hw; clear Hw w'; split; [done|split]].
  - rewrite Hw. unfold setText_steps, input1_setText, valueChangeEvent, emit.
    rewrite replace_is_escape.
    cbn [noSignal last_text multiline input1 emitted negb andb].
    rewrite Hheld. by destruct (multiline w), signal.
  - unfold valueChangeEvent.
    cbn [noSignal last_text multiline input1 emitted negb andb].
    by rewrite bool_decide_eq_true_2.
  - unfold slot_run, valueChangeEvent, emit.
    cbn [noSignal last_text multiline input1 emitted negb andb].
    destruct (decide (typed = escape s)) as [->|Hne].
    + by rewrite bool_decide_eq_true_2.
    + by rewrite bool_decide_eq_false_2 by congruence.
Qed.

End TextWidgetEventsFacts.

Lemma setText_is_no_edit_witness :
  TextWidget.input1_holds true (TextWidget.escape two_line_text)
  = TextWidget.escape two_line_text
  /\ TextWidgetEvents.valueChangeEvent
       (TextWidget.setText (TextWidget.mk false None true "" 0)
          two_line_text false)
     = TextWidget.setText (TextWidget.mk false None true "" 0)
         two_line_text false
  /\ TextWidget.emitted
       (TextWidgetEvents.slot_run "title"
          (TextWidget.setText (TextWidget.mk false None true "" 0)
             two_line_text false))
     = 1.
Proof.
  assert (Hheld : TextWidget.input1_holds true (TextWidget.escape two_line_text)
                  = TextWidget.escape two_line_text) by reflexivity.
  split; [exact Hheld|].
  destruct (setText_is_no_edit (TextWidget.mk false None true "" 0)
              two_line_text "title" false Hheld) as (_ & _ & Hsame & Hedit).
  split; [exact Hsame|]. exact Hedit.
Defined.

(** The condition on the input is needed: of a text that the text edit
    takes for rich text the input holds the plain text, which is not
    the text that was set, and the next run of the slot reports an
    edit although the user has changed nothing. *)
Example markup_is_reported_as_edit :
  TextWidget.emitted
    (TextWidgetEvents.valueChangeEvent
       (TextWidget.setText (TextWidget.mk false None true "" 0)
          "<b>bold</b>" false))
  = 1.
Proof. reflexivity. Qed.

(** ** The check box *)

(** X5. [setChecked(state, signal)] gives the check box the state:
    [isChecked()] returns it afterwards and [getSerialized()] is its
    Python literal. The change that the check box itself reports
    during the call is not passed on; [stateChanged], with the new
    state, and [editingFinished] are emitted once each when [signal]
    is set, and not at all otherwise. *)
Theorem setChecked_isChecked w state signal :
  let w' := CheckWidget.setChecked state signal w in
  CheckWidget.isChecked w' = state
  /\ CheckWidget.noSignal w' = false
  /\ CheckWidget.stateChanged w'
     = CheckWidget.stateChanged w ++ (if signal then [state] else [])
  /\ CheckWidget.editingFinished w'
     = (if signal then S (CheckWidget.editingFinished w)
        else CheckWidget.editingFinished w)
  /\ CheckWidget.getSerialized w' = (if state then "True" else "False").
Proof.
  unfold CheckWidget.setChecked, CheckWidget.input1_setChecked,
    CheckWidget.onStateChanged, CheckWidget.getSerialized,
    CheckWidget.get_value, CheckWidget.isChecked.
  cbn. destruct (decide (CheckWidget.checked w = state)) as [<-|Hne];
    destruct signal; cbn; rewrite ?app_nil_r; done.
Qed.

(** ** The free number input: what an edit reports *)

Section FreeNumberInputEdits.
Variable F : Type.
Variable float : string -> res F.
Variable str : F -> string.
Variable accepts : option F -> res unit.

Import FreeNumberInputWidget.

(** X6. When the user changes the text of a free number input whose
    signal is on, and the toolkit accepts a float for the signal and
    refuses [None] with a [TypeError]: a text that [value()] reads as
    a number is reported once by [valueChanged] and clears the style
    sheet; a text that is no number, for which [value()] returns
    [None], is not reported and marks the input with the red style. *)
Theorem edit_reports_number (w : t F) (s : string) :
  send_signal F w = true ->
  text F w <> s ->
  accepts None = Raise TypeError ->
  (forall f, accepts (Some f) = Ok tt) ->
  let w' := (line_setText F float accepts s w).1 in
  text F w' = s
  /\ match FreeNumberInput.value F float s with
     | Ok (Some f) =>
         valueChanged F w' = valueChanged F w ++ [Some f]
         /\ styleSheet F w' = ""
     | Ok None =>
         valueChanged F w' = valueChanged F w
         /\ styleSheet F w' = invalid_style
     | Raise TypeError =>
         valueChanged F w' = valueChanged F w
         /\ styleSheet F w' = invalid_style
     | Raise _ =>
         valueChanged F w' = valueChanged F w
         /\ styleSheet F w' = styleSheet F w
     end.
Proof.
  intros Hon Hne Hnone Hsome. cbv zeta. unfold line_setText.
  rewrite bind_run, get_run, bind_run, modify_run.
  destruct (decide (text F w = s)); [done|].
  unfold Chooser.run_slot, emitValueChanged.
  rewrite bind_run, get_run. cbn [send_signal with_text text]. rewrite Hon.
  unfold try_except. rewrite bind_run, lift_run.
  destruct (FreeNumberInput.value F float s) as [[f|]|e].
  - unfold emit. rewrite !bind_run, lift_run, Hsome, !modify_run. by cbn.
  - unfold emit. rewrite !bind_run, lift_run, Hnone. by cbn.
  - destruct e; by cbn.
Qed.

End FreeNumberInputEdits.

Lemma edit_reports_number_witness :
  FreeNumberInputWidget.send_signal string
    (FreeNumberInputWidget.mk string "1.0" true "" 3 []) = true
  /\ "1.0" <> "2,5"
  /\ MoreExamples.floats_only None
     = Raise TypeError
  /\ (forall f : string,
        MoreExamples.floats_only (Some f)
        = Ok tt)
  /\ FreeNumberInputWidget.valueChanged string
       (FreeNumberInputWidget.line_setText string Toy.float
          MoreExamples.floats_only "2,5"
          (FreeNumberInputWidget.mk string "1.0" true "" 3 [])).1
     = [Some "2.5"].
Proof.
  split; [reflexivity|]. split; [discriminate|]. split; [reflexivity|].
  split; [reflexivity|].
  destruct (edit_reports_number string Toy.float
              MoreExamples.floats_only
              (FreeNumberInputWidget.mk string "1.0" true "" 3 []) "2,5"
              eq_refl ltac:(discriminate) eq_refl (fun _ => eq_refl))
    as [_ Hreport].
  exact (proj1 Hreport).
Defined.

(** ** An edit while an axes and another artist are selected *)

Section MixedSelection.
Import Linkable.
Context {W value : Type} `{Widget W value}.
Variable sc : scene.
Variable cfg : config.

Lemma find_label_raises e before t after :
  Forall (fun a => exists lx ly,
            xaxis_label sc a = Some lx /\ yaxis_label sc a = Some ly
            /\ lx <> e /\ ly <> e) before ->
  xaxis_label sc t = None ->
  find_label sc e (before ++ t :: after) = Raise AttributeError.
Proof.
  intros Hbefore Ht. induction Hbefore as [|a before Ha _ IH]; simpl.
  - by rewrite Ht.
  - destruct Ha as (lx & ly & -> & -> & Hx & Hy).
    destruct (decide (e = lx)); [congruence|].
    destruct (decide (e = ly)); [congruence|]. exact IH.
Qed.

(** X7. A linked text that is no axis label cannot be edited while
    an axes is the first selection target and some target, such as the
    text itself, has no x axis: when none of the targets before that
    one has the text as its x or y label, the search of the label
    raises an [AttributeError] in [getLinkedPropertyAll], the first
    statement of [updateLink], and [updateLink] changes nothing: no
    property is set and no edit is registered. *)
Theorem updateLink_mixed_selection (st : @state W value) e first before t after :
  direct cfg = false ->
  element st = Some e ->
  kind sc e = Text ->
  selection_targets sc (main_figure sc e) = before ++ t :: after ->
  head (before ++ t :: after) = Some first ->
  kind sc first = Axes ->
  Forall (fun a => exists lx ly,
            xaxis_label sc a = Some lx /\ yaxis_label sc a = Some ly
            /\ lx <> e /\ ly <> e) before ->
  xaxis_label sc t = None ->
  updateLink sc cfg st = (st, Raise AttributeError).
Proof.
  intros Hd He Hkind Hts Hhead Hfirst Hbefore Ht.
  assert (Hlabel : label_object sc e = Raise AttributeError).
  { unfold label_object. rewrite Hkind, Hts.
    destruct (before ++ t :: after) as [|t0 rest] eqn:E; [done|].
    injection Hhead as ->.
    destruct (decide (kind sc first = Axes)); [|done].
    rewrite <- E. by apply find_label_raises. }
  unfold updateLink, getLinkedPropertyAll. rewrite Hd.
  rewrite bind_run. unfold getAll.
  rewrite bind_run. unfold the_element. rewrite He.
  by rewrite bind_run, lift_run, Hlabel.
Qed.

End MixedSelection.

Lemma updateLink_mixed_selection_witness :
  Linkable.direct Example.alpha_link = false
  /\ Linkable.element MoreExamples.title_state = Some 5
  /\ Linkable.kind MoreExamples.title_scene 5 = Linkable.Text
  /\ Linkable.selection_targets MoreExamples.title_scene
       (Linkable.main_figure MoreExamples.title_scene 5) = [10] ++ 5 :: []
  /\ Linkable.kind MoreExamples.title_scene 10 = Linkable.Axes
  /\ Linkable.xaxis_label MoreExamples.title_scene 5 = None
  /\ Linkable.updateLink MoreExamples.title_scene Example.alpha_link
       MoreExamples.title_state
     = (MoreExamples.title_state, Raise AttributeError).
Proof.
  do 6 (split; [reflexivity|]).
  apply (updateLink_mixed_selection MoreExamples.title_scene Example.alpha_link
           MoreExamples.title_state 5 10 [10] 5 []); try reflexivity.
  constructor; [|constructor]. exists 1, 3. repeat split; discriminate.
Defined.

(** The widget still shows the value of the title when the title
    becomes its target; it is the edit that fails. *)
Example title_is_shown_but_not_edited :
  (Linkable.setTarget Example.alpha_link 5 MoreExamples.title_state).2 = Ok tt
  /\ Linkable.visible
       (Linkable.setTarget Example.alpha_link 5 MoreExamples.title_state).1
     = true
  /\ (Linkable.updateLink MoreExamples.title_scene Example.alpha_link
        MoreExamples.title_state).2
     = Raise AttributeError.
Proof. repeat split; reflexivity. Qed.

(** ** A direct link has no [getLinkedPropertyAll] *)

Section DirectUpdate.
Import Linkable.
Context {W value : Type} `{Widget W value}.
Variable sc : scene.
Variable cfg : config.

(** X10. For a link made with [direct=True], [updateLink] raises an
    [AttributeError] at its first statement, whatever the widget holds
    and whatever the element is: [link] gives such a widget no
    [getLinkedPropertyAll]. Nothing is written, registered or drawn. *)
Theorem updateLink_direct_raises (st : @state W value) :
  direct cfg = true ->
  updateLink sc cfg st = (st, Raise AttributeError).
Proof.
  intros Hd. unfold updateLink, getLinkedPropertyAll. by rewrite Hd.
Qed.

End DirectUpdate.

Lemma updateLink_direct_raises_witness :
  Linkable.direct (Linkable.mk_config true "figure.dpi" (fun _ => Ok true)) = true
  /\ Linkable.updateLink Example.axes_scene
       (Linkable.mk_config true "figure.dpi" (fun _ => Ok true))
       Example.label_state
     = (Example.label_state, Raise AttributeError).
Proof.
  split; [reflexivity|].
  apply (updateLink_direct_raises Example.axes_scene
           (Linkable.mk_config true "figure.dpi" (fun _ => Ok true))
           Example.label_state).
  reflexivity.
Defined.

(** ** The registry of figures *)

Section FiguresFacts.
Import Figures.

(** What [figure] does for a number that is in use, and for one that
    is not. *)
Lemma figure_known r n canvas figsize :
  figures r !! n = Some canvas ->
  figure (Some n) figsize r
  = (mk (figures r) (windows r)
       (match figsize with
        | Some (w, h) => <[canvas := (100, 100, w * 80, h * 80)%Z]> (geometry r)
        | None => geometry r
        end)
       (Some canvas),
     Ok canvas).
Proof.
  intros Hn. unfold figure. rewrite bind_run, get_run, bind_run.
  destruct (decide (is_Some (figures r !! n))) as [_|Hno].
  2:{ exfalso. apply Hno. by eexists. }
  rewrite ret_run, bind_run, get_run, Hn, bind_run, lift_run, bind_run.
  destruct figsize as [[w h]|]; rewrite ?modify_run, ?ret_run; cbn;
    by destruct r.
Qed.

Lemma figure_new r n figsize :
  figures r !! n = None ->
  figure (Some n) figsize r
  = (mk (<[n := length (windows r)]> (figures r)) (windows r ++ [n])
       (match figsize with
        | Some (w, h) =>
            <[length (windows r) := (100, 100, w * 80, h * 80)%Z]> (geometry r)
        | None => geometry r
        end)
       (Some (length (windows r))),
     Ok (length (windows r))).
Proof.
  intros Hn. unfold figure. rewrite bind_run, get_run, bind_run.
  destruct (decide (is_Some (figures r !! n))) as [[c Hc]|_]; [congruence|].
  unfold PlotWindow.
  rewrite !bind_run, get_run, !bind_run, modify_run, ret_run, modify_run.
  rewrite bind_run, get_run. cbn [figures].
  rewrite lookup_insert_eq, bind_run, lift_run, bind_run.
  destruct figsize as [[w h]|]; rewrite ?modify_run, ?ret_run; reflexivity.
Qed.

(** X11. With no [figsize], or a [figsize] of two integers whose
    eightyfold is a C integer, so that [setGeometry] takes it, asking
    [figure] for a number twice returns the same figure: the second
    call creates no window, leaves the dictionary as it is and makes
    the canvas of the figure the active one. *)
Theorem figure_same_number r n figsize figsize' :
  accepted figsize -> accepted figsize' ->
  exists r1 canvas r2,
    figure (Some n) figsize r = (r1, Ok canvas)
    /\ figure (Some n) figsize' r1 = (r2, Ok canvas)
    /\ figures r2 = figures r1
    /\ windows r2 = windows r1
    /\ figures r1 !! n = Some canvas
    /\ active r2 = Some canvas.
Proof.
  intros _ _. destruct (figures r !! n) as [canvas|] eqn:En.
  - do 3 eexists. split; [by apply figure_known|].
    split; [by apply figure_known|]. done.
  - do 3 eexists. split; [by apply figure_new|].
    split; [apply figure_known; cbn; by rewrite lookup_insert_eq|].
    cbn. by rewrite lookup_insert_eq.
Qed.

Lemma dense_fresh r : dense r -> figures r !! Int (Z.of_nat (size (figures r))) = None.
Proof.
  intros Hd. apply eq_None_not_Some. intros Hs.
  apply Hd in Hs as (i & Hlt & Heq). injection Heq as Heq. lia.
Qed.

(** X12. As long as the numbers in use are [0], ..., [len(figures) - 1],
    [figure()] without a number creates a new window each time: the
    new figure gets the number [len(figures)], no figure that exists is
    returned or replaced, and the numbers in use are again an initial
    segment, so that the next call creates the next figure. *)
Theorem figure_next_number r figsize :
  dense r ->
  exists r',
    figure None figsize r = (r', Ok (length (windows r)))
    /\ windows r' = windows r ++ [Int (Z.of_nat (size (figures r)))]
    /\ figures r'
       = <[Int (Z.of_nat (size (figures r))) := length (windows r)]> (figures r)
    /\ size (figures r') = S (size (figures r))
    /\ (forall k c, figures r !! k = Some c -> figures r' !! k = Some c)
    /\ dense r'.
Proof.
  intros Hd. pose proof (dense_fresh r Hd) as Hfresh.
  assert (figure None figsize r
          = figure (Some (Int (Z.of_nat (size (figures r))))) figsize r) as ->
    by reflexivity.
  rewrite (figure_new _ _ _ Hfresh).
  eexists. split; [reflexivity|]. cbn [windows figures].
  assert (Hsize : size (<[Int (Z.of_nat (size (figures r))) := length (windows r)]>
                          (figures r)) = S (size (figures r)))
    by (by apply map_size_insert_None).
  split; [done|]. split; [done|]. split; [done|]. split.
  - intros k c Hk. rewrite lookup_insert_ne; [done|]. congruence.
  - intros k. cbn [figures]. rewrite Hsize, lookup_insert_is_Some. split.
    + intros [<-|[_ Hs]].
      * exists (size (figures r)). split; [lia|done].
      * apply Hd in Hs as (i & Hlt & ->). exists i. split; [lia|done].
    + intros (i & Hlt & ->).
      destruct (decide (i = size (figures r))) as [->|Hne]; [by left|].
      right. split; [intros Heq; injection Heq; lia|].
      apply Hd. exists i. split; [lia|done].
Qed.

End FiguresFacts.

Lemma figure_same_number_witness :
  Figures.accepted (Some (8, 6)%Z) /\ Figures.accepted None
  /\ exists r1 r2,
       Figures.figure (Some (Figures.Int 1)) (Some (8, 6)%Z) Figures.empty
       = (r1, Ok 0)
       /\ Figures.figure (Some (Figures.Int 1)) None r1 = (r2, Ok 0)
       /\ Figures.windows r2 = [Figures.Int 1].
Proof.
  assert (Hfirst : Figures.accepted (Some (8, 6)%Z))
    by (unfold Figures.accepted, Figures.c_int; lia).
  split; [exact Hfirst|]. split; [exact I|].
  destruct (figure_same_number Figures.empty (Figures.Int 1) (Some (8, 6)%Z)
              None Hfirst I)
    as (r1 & canvas & r2 & Hrun1 & Hrun2 & _ & Hwin & _ & _).
  assert (Hfst : Figures.figure (Some (Figures.Int 1)) (Some (8, 6)%Z)
                   Figures.empty
                 = (Figures.mk (<[Figures.Int 1 := 0]> ∅) [Figures.Int 1]
                      (<[0 := (100, 100, 640, 480)%Z]> ∅) (Some 0), Ok 0))
    by reflexivity.
  rewrite Hfst in Hrun1. injection Hrun1 as <- <-.
  exists (Figures.mk (<[Figures.Int 1 := 0]> ∅) [Figures.Int 1]
            (<[0 := (100, 100, 640, 480)%Z]> ∅) (Some 0)), r2.
  split; [exact Hfst|]. split; [exact Hrun2|]. rewrite Hwin. reflexivity.
Defined.

Lemma figure_next_number_witness :
  Figures.dense Figures.empty
  /\ exists r',
       Figures.figure None None Figures.empty = (r', Ok 0)
       /\ Figures.figures r' = <[Figures.Int 0 := 0]> ∅
       /\ Figures.dense r'.
Proof.
  assert (Hd : Figures.dense Figures.empty).
  { intros k. cbn. rewrite lookup_empty. split.
    - by intros [? ?].
    - intros (i & Hlt & _). rewrite map_size_empty in Hlt. lia. }
  split; [exact Hd|].
  destruct (figure_next_number Figures.empty None Hd)
    as (r' & Hrun & _ & Hfigs & _ & _ & Hd').
  exists r'. split; [exact Hrun|]. split; [|exact Hd'].
  rewrite Hfigs. reflexivity.
Defined.

(** When the numbers in use are not an initial segment, [figure()]
    may return a figure that exists: after [figure(1)] alone, the
    dictionary has one entry, and [figure()] is [figure(1)]. *)
Example figure_reuses_a_number :
  let r1 := (Figures.figure (Some (Figures.Int 1)) None Figures.empty).1 in
  (Figures.figure (Some (Figures.Int 1)) None Figures.empty).2 = Ok 0
  /\ (Figures.figure None None r1).2 = Ok 0
  /\ Figures.windows (Figures.figure None None r1).1 = [Figures.Int 1].
Proof. cbv zeta. repeat split; reflexivity. Qed.

(** ** The colour chooser: what [updateColors] keeps and builds *)

(** Run the statements at the head of a computation. *)
Ltac run :=
  repeat first
    [ rewrite bind_run | rewrite ret_run | rewrite gets_run | rewrite get_run
    | rewrite modify_run | rewrite raise_run | rewrite lift_run
    | progress cbv beta iota ].

Section ChooserUpdate.
Context {mpl : Interface} {builtins : Builtins} {toolkit : Toolkit}.
Import ColorGraph Chooser ChooserEvents.

(** The swap counter stays. *)
Definition counter_kept (w w' : chooser) : Prop :=
  swap_counter w' = swap_counter w.

#[local] Instance counter_kept_frame : Frame counter_kept.
Proof.
  split; try (intros; by unfold counter_kept).
  split.
  - by intros w.
  - intros w1 w2 w3. unfold counter_kept. congruence.
Qed.

#[local] Existing Instance buttons_kept_frame.

(** X13. After [resetSwapcounter], the slot of the colour picker, the
    swap counter is 0 whatever [updateColors] did, also when it
    raised; the colour buttons that existed are still there,
    unchanged. *)
Theorem resetSwapcounter_zero w :
  swap_counter (resetSwapcounter w).1 = 0
  /\ buttons w `prefix_of` buttons (resetSwapcounter w).1.
Proof.
  unfold resetSwapcounter.
  pose proof (preserves_updateColors counter_kept (fun _ _ => eq_refl)
                (with_swap_counter 0 w)) as Hcount.
  pose proof (preserves_updateColors buttons_kept buttons_kept_text
                (with_swap_counter 0 w)) as Hbuttons.
  rewrite bind_run, modify_run.
  destruct (updateColors (with_swap_counter 0 w)) as [w' [[]|e]]; by split.
Qed.

(** The flag [trigger_no_update] stays. *)
Definition flag_kept (w w' : chooser) : Prop :=
  trigger_no_update w' = trigger_no_update w.

#[local] Instance flag_kept_preorder : PreOrder flag_kept.
Proof.
  split.
  - by intros w.
  - intros w1 w2 w3. unfold flag_kept. congruence.
Qed.

Lemma on_figure_keeps_flag {A : Type} (m : M fstate A) :
  preserves flag_kept (on_figure m).
Proof. intros w. unfold on_figure. by destruct (m (fig w)). Qed.

Lemma attribute_keeps_flag {A : Type} (f : chooser -> option A) :
  preserves flag_kept (attribute f).
Proof. intros w. unfold attribute. by destruct (f w). Qed.

Lemma addColorButton_keeps_flag color basecolor :
  preserves flag_kept (addColorButton color basecolor).
Proof.
  unfold addColorButton.
  repeat first [ apply attribute_keeps_flag | preserves_step | done ].
  - destruct color as [s|c]; [|preserves_step].
    destruct (to_hex (of_str s)) as [h|[]]; preserves_step.
  - destruct basecolor as [base|]; [|preserves_step].
    destruct (truthy (Some base));
      repeat first [ apply attribute_keeps_flag | preserves_step | done ].
Qed.

(** X14. [updateColors] never leaves the chooser deaf to edits of the
    colour text: when [trigger_no_update] is off before, it is off
    after, also when [updateColors] raised, be it while the text was
    built under the flag. *)
Theorem updateColors_restores_flag w :
  trigger_no_update w = false ->
  trigger_no_update (updateColors w).1 = false.
Proof.
  intros Hoff. change (wp updateColors (fun w' _ => trigger_no_update w' = false) w).
  unfold updateColors. wp_step. wp_step. wp_step.
  eapply wp_mono; [apply (preserves_wp flag_kept), on_figure_keeps_flag|].
  intros w1 [[]|e] Hk; cbv beta; unfold flag_kept in Hk; [|congruence].
  repeat (lazymatch goal with
          | |- wp (for_each _ _) _ _ => fail
          | |- _ => wp_step
          end).
  eapply wp_mono.
  { apply (preserves_wp flag_kept), (preserves_for_each flag_kept).
    intros c. apply addColorButton_keeps_flag. }
  intros w2 [[]|e] Hk2; cbv beta; unfold flag_kept in Hk2; simpl in Hk2;
    [|congruence].
  wp_step. wp_step. wp_step. unfold wp. done.
Qed.

(** What a successful [addColorButton] leaves as it was. *)
Definition rest_kept (w w' : chooser) : Prop :=
  figure w' = figure w /\ fig w' = fig w /\ color_keys w' = color_keys w
  /\ swap_counter w' = swap_counter w
  /\ trigger_no_update w' = trigger_no_update w
  /\ colors_text w' = colors_text w.

Lemma addColorButton_ok c w w' l :
  color_buttons_list w = Some l ->
  addColorButton c (Some c) w = (w', Ok tt) ->
  exists b,
    button_for c b
    /\ buttons w' = buttons w ++ [b]
    /\ layout_colors w' = layout_colors w ++ [length (buttons w)]
    /\ color_buttons_list w' = Some (l ++ [length (buttons w)])
    /\ rest_kept w w'.
Proof.
  intros Hl Hrun.
  refine (wp_run _ (fun w' r => r = Ok tt -> _) _ _ _ Hrun _ eq_refl).
  clear Hrun w'. unfold addColorButton, button_for, button_value.
  wp_step.
  destruct c as [s|cm]; [|by wp_step].
  destruct (to_hex (of_str s)) as [h|[]]; wp_step; try done.
  all: repeat wp_step.
  all: destruct (truthy (Some (KStr s))).
  all: repeat first [ wp_step | apply wp_attribute ]; cbn.
  all: try (destruct (color_buttons w) as [d|]; [|done]).
  all: repeat first [ wp_step | apply wp_attribute ]; cbn.
  all: rewrite Hl; repeat wp_step; cbn; intros _; eexists.
  all: split; [by eexists|]; by repeat split.
Qed.

Lemma rest_kept_trans w1 w2 w3 : rest_kept w1 w2 -> rest_kept w2 w3 -> rest_kept w1 w3.
Proof.
  unfold rest_kept. intros (?&?&?&?&?&?) (?&?&?&?&?&?).
  repeat split; congruence.
Qed.

Lemma add_buttons_ok ks w w' l :
  color_buttons_list w = Some l ->
  for_each (fun c => addColorButton c (Some c)) ks w = (w', Ok tt) ->
  exists extra,
    Forall2 button_for ks extra
    /\ buttons w' = buttons w ++ extra
    /\ layout_colors w'
       = layout_colors w ++ seq (length (buttons w)) (length extra)
    /\ color_buttons_list w'
       = Some (l ++ seq (length (buttons w)) (length extra))
    /\ rest_kept w w'.
Proof.
  revert w l. induction ks as [|k ks IH]; intros w l Hl.
  - simpl. intros [= <-]. exists []. rewrite !app_nil_r.
    split; [constructor|]. by repeat split.
  - cbn [for_each]. rewrite bind_run.
    destruct (addColorButton k (Some k) w) as [w1 [[]|e]] eqn:E1; [|done].
    destruct (addColorButton_ok _ _ _ _ Hl E1) as (b & Hb & Hbs & Hlay & Hl1 & Hk).
    intros Hrest.
    destruct (IH _ _ Hl1 Hrest) as (extra & Hex & Hbs' & Hlay' & Hl' & Hk').
    exists (b :: extra). split; [by constructor|].
    rewrite Hbs, length_app in *. cbn [length seq] in *.
    replace (length (buttons w) + 1) with (S (length (buttons w))) in * by lia.
    split; [by rewrite Hbs', <- app_assoc|].
    split; [by rewrite Hlay', Hlay, <- app_assoc|].
    split; [by rewrite Hl', <- app_assoc|].
    by eapply rest_kept_trans.
Qed.

(** X15. When [updateColors] returns, the chooser shows the colours of
    the catalogue that [figureListColors] has just computed: there is
    one new button for each of the first 20 keys, in the order of the
    keys, each linked to its key and showing it; the list and the
    layout of the chooser hold exactly these buttons; the text lists
    the first 10 keys; the earlier buttons are left as they were, and
    neither the swap counter nor the figure's properties change. *)
Theorem updateColors_buttons w :
  (updateColors w).2 = Ok tt ->
  let w' := (updateColors w).1 in
  fig w' = (figureListColors (figure w) (fig w)).1
  /\ color_keys w' = cat_keys (default [] (color_artists (fig w')))
  /\ exists extra,
       Forall2 button_for (take 20 (color_keys w')) extra
       /\ length extra = length (color_keys w') `min` 20
       /\ buttons w' = buttons w ++ extra
       /\ color_buttons_list w' = Some (seq (length (buttons w)) (length extra))
       /\ layout_colors w' = seq (length (buttons w)) (length extra)
       /\ listing (color_keys w') = Ok (colors_text w')
       /\ trigger_no_update w' = false
       /\ swap_counter w' = swap_counter w.
Proof.
  intros Hok w'.
  assert (Hrun : updateColors w = (w', Ok tt)).
  { subst w'. destruct (updateColors w) as [w1 r]. simpl in Hok. by subst r. }
  clearbody w'. clear Hok.
  refine (wp_run _ (fun w' r => r = Ok tt -> _) _ _ _ Hrun _ eq_refl).
  clear Hrun w'. unfold updateColors. do 3 wp_step.
  unfold wp at 1, on_figure.
  destruct (figureListColors (figure w) (fig w)) as [f [[]|e]] eqn:Efig;
    cbn [fst snd]; [|done].
  repeat wp_step.
  set (w4 := with_color_buttons_list (Some []) _).
  set (keys := color_keys w4).
  unfold wp at 1.
  destruct (for_each (fun color => addColorButton color (Some color))
              (take 20 keys) w4) as [w5 [[]|e]] eqn:Eloop;
    cbn [fst snd]; [|done].
  destruct (add_buttons_ok (take 20 keys) w4 w5 [] eq_refl Eloop)
    as (extra & Hex & Hbs & Hlay & Hl & Hfigure & Hf & Hkeys & Hcount & _ & _).
  repeat wp_step.
  destruct (listing keys) as [text|e] eqn:Elist; [|done].
  wp_step. intros _. cbn.
  rewrite Hf, Hkeys. subst keys w4. cbn in *.
  split; [done|]. split; [done|].
  exists extra. split; [done|].
  split. { rewrite <- (Forall2_length _ _ _ Hex), length_take. lia. }
  by repeat split.
Qed.

(** Lines that name no colour leave the chooser alone. *)
Lemma colors_changed_line_skips index line w :
  (forall c e, to_hex c = Raise e -> e = ValueError) ->
  sets_color line = false ->
  colors_changed_line index line w = (w, Ok tt).
Proof.
  intros Honly. unfold sets_color, colors_changed_line.
  destruct (to_hex (of_str (strip line))) as [h|e] eqn:E; [done|].
  rewrite (Honly _ _ E). intros Hno%bool_decide_eq_false.
  rewrite bind_run, ret_run. by destruct (decide (line ∈ colormaps)).
Qed.

Lemma colors_changed_loop_skips skipped more index w :
  (forall c e, to_hex c = Raise e -> e = ValueError) ->
  Forall (fun s => sets_color s = false) skipped ->
  colors_changed_loop index (skipped ++ more) w
  = colors_changed_loop (index + length skipped) more w.
Proof.
  intros Honly Hs. revert index.
  induction Hs as [|s skipped Hskip _ IH]; intros index; simpl.
  - by rewrite Nat.add_0_r.
  - rewrite bind_run, colors_changed_line_skips by done.
    rewrite IH. f_equal. lia.
Qed.

(** X16. The lines of the colour text that name no colour are skipped
    but counted: when more such lines come first than there are
    colour buttons, the first line that names a colour makes
    [colors_changed] add one button and then raise an [IndexError]
    at [self.color_buttons_list[index]]; the lines after it are not
    applied. *)
Theorem colors_changed_shifted_index w l skipped line rest :
  (forall c e, to_hex c = Raise e -> e = ValueError) ->
  trigger_no_update w = false ->
  color_buttons_list w = Some l ->
  split_on LF (colors_text w) = skipped ++ line :: rest ->
  Forall (fun s => sets_color s = false) skipped ->
  sets_color line = true ->
  length l < length skipped ->
  exists w',
    colors_changed w = (w', Raise IndexError)
    /\ length (buttons w') = S (length (buttons w))
    /\ color_buttons_list w' = Some (l ++ [length (buttons w)])
    /\ colors_text w' = colors_text w
    /\ swap_counter w' = swap_counter w.
Proof.
  intros Honly Hoff Hl Hsplit Hskipped Hline Hshort.
  unfold colors_changed. rewrite bind_run, get_run, Hoff, Hsplit.
  rewrite colors_changed_loop_skips by done. cbn [colors_changed_loop plus].
  rewrite bind_run.
  assert (exists color',
            colors_changed_line (length skipped) line w
            = (l' ← attribute color_buttons_list;
               (if decide (length l' <= length skipped)
                then addColorButton (KStr color') None
                else mret tt);;
               l'' ← attribute color_buttons_list;
               match l'' !! length skipped with
               | None => raise IndexError
               | Some wid => setColor wid color'
               end) w) as [color' ->].
  { unfold colors_changed_line, sets_color in *.
    destruct (to_hex (of_str (strip line))) as [h|e] eqn:E.
    - exists h. by rewrite bind_run, ret_run.
    - rewrite (Honly _ _ E) in *. apply bool_decide_eq_true in Hline.
      exists line. rewrite bind_run, ret_run.
      by destruct (decide (line ∈ colormaps)). }
  rewrite bind_run. unfold attribute at 1. rewrite Hl.
  destruct (decide (length l <= length skipped)) as [_|?]; [|lia].
  rewrite bind_run.
  assert (exists v,
            addColorButton (KStr color') None w
            = (with_color_buttons_list (Some (l ++ [length (buttons w)]))
                 (with_layout_colors (layout_colors w ++ [length (buttons w)])
                    (with_buttons
                       (buttons w ++ [mk_button v v (style_of v v) None]) w)),
               Ok tt)) as [v ->].
  { unfold addColorButton.
    destruct (to_hex (of_str color')) as [h|e] eqn:E;
      [exists h|rewrite (Honly _ _ E); exists color'].
    all: run; unfold attribute; cbn; rewrite Hl; by run. }
  rewrite bind_run. unfold attribute. cbn [color_buttons_list with_color_buttons_list].
  rewrite (lookup_ge_None_2 (l ++ [length (buttons w)]) (length skipped)).
  2:{ rewrite length_app. simpl. lia. }
  rewrite raise_run. eexists. split; [reflexivity|]. cbn.
  rewrite length_app. simpl. split; [lia|]. done.
Qed.

End ChooserUpdate.

(** ** The catalogue between two walks *)

Section CatalogueAgain.
Context `{Interface}.
Import ColorGraph.

(** The walk reads the properties of the artists and the colormaps,
    and nothing else of the figure. *)
Lemma add_artist_colors_reads st st' a :
  props st = props st' -> cms st = cms st' ->
  add_artist_colors st a = add_artist_colors st' a.
Proof.
  intros Hp Hc.
  unfold add_artist_colors, add_color_type, add_color, get_colors.
  by rewrite Hp, Hc.
Qed.

Lemma addChildren_reads st st' parent :
  props st = props st' -> cms st = cms st' ->
  addChildren st parent = addChildren st' parent.
Proof.
  intros Hp Hc.
  induction parent as [info children IH] using artist_tree_ind.
  rewrite !addChildren_unfold.
  induction IH as [|child children Hchild _ IHrest]; [done|].
  cbn [for_each]. rewrite IHrest. unfold visit.
  by rewrite Hchild, (add_artist_colors_reads st st').
Qed.

(** X17. [figureListColors] only replaces [figure.color_artists], and
    what it puts there does not depend on the catalogue the figure had
    before: listing the colours a second time gives the same catalogue
    and the same outcome as the first time. *)
Theorem figureListColors_again figure st :
  figureListColors figure (figureListColors figure st).1
  = figureListColors figure st
  /\ props (figureListColors figure st).1 = props st
  /\ cms (figureListColors figure st).1 = cms st
  /\ changes (figureListColors figure st).1 = changes st.
Proof.
  rewrite !figureListColors_run. cbn [fst props cms changes].
  by rewrite (addChildren_reads
                (mk_fstate (props st) (cms st)
                   (Some (addChildren st figure []).1) (changes st)) st).
Qed.

(** A swap leaves the catalogue as it is. *)
Lemma swap_entry_color_artists new_color data changed st :
  color_artists (swap_entry new_color data (changed, st)).2 = color_artists st.
Proof.
  unfold swap_entry, apply_color, addChange, set_color, with_cms.
  destruct (e_link data) as [l|].
  - destruct (decide (l_cmap l ∈ changed));
      destruct (cm_has_set_color (l_cmap l));
      try destruct (decide (new_color ∈ colormaps)); reflexivity.
  - destruct (decide (new_color ∈ colormaps)); reflexivity.
Qed.

Lemma swap_entries_color_artists new_color entries st :
  color_artists (swap_entries new_color entries st) = color_artists st.
Proof.
  unfold swap_entries. generalize (@nil cmap) as changed. revert st.
  induction entries as [|data entries IH]; intros st changed; [done|].
  cbn [foldl].
  destruct (swap_entry new_color data (changed, st)) as [changed1 st1] eqn:E.
  rewrite IH.
  pose proof (swap_entry_color_artists new_color data changed st) as Hone.
  by rewrite E in Hone.
Qed.

(** X18. [figureSwapColor] does not bring the catalogue up to date:
    after the colour [color_base] of the catalogue has been replaced
    by a colour that was no key, the catalogue is the same as before;
    the new colour still is no key of it, and a swap of the new
    colour raises a [KeyError] and changes nothing, until the colours
    are listed again. *)
Theorem swap_leaves_catalogue figure new_color color_base other st cat :
  color_artists st = Some cat ->
  is_Some (cat_lookup color_base cat) ->
  cat_lookup (KStr new_color) cat = None ->
  exists st1,
    figureSwapColor figure new_color color_base st = (st1, Ok tt)
    /\ color_artists st1 = Some cat
    /\ figureSwapColor figure other (KStr new_color) st1 = (st1, Raise KeyError).
Proof.
  intros Hcat [entries Hentries] Hnew.
  exists (swap_entries new_color entries st).
  assert (Hafter : color_artists (swap_entries new_color entries st) = Some cat)
    by (by rewrite swap_entries_color_artists).
  split; [|split; [done|]].
  - unfold figureSwapColor.
    rewrite bind_run, gets_run, Hcat, bind_run, ret_run, bind_run, gets_run, Hcat.
    cbn [mbind option_bind]. by rewrite Hentries.
  - unfold figureSwapColor.
    rewrite bind_run, gets_run, Hafter, bind_run, ret_run, bind_run, gets_run,
      Hafter.
    cbn [mbind option_bind]. by rewrite Hnew.
Qed.

End CatalogueAgain.

Lemma toy_to_hex_raises c e : Toy.toy_to_hex c = Raise e -> e = ValueError.
Proof.
  destruct c as [s|h cm v]; [|done]. unfold Toy.toy_to_hex, Toy.str_to_hex.
  destruct s as [|a s]; [congruence|].
  destruct (Ascii.eqb a (Ascii.ascii_of_nat 35)).
  - destruct ((String.length s =? 6)%nat && Toy.string_forall Toy.is_hex_digit s);
      congruence.
  - destruct (Toy.assoc (String a s) Toy.named_colors); congruence.
Qed.

Lemma updateColors_buttons_witness :
  (Chooser.updateColors Example.created).2 = Ok tt
  /\ exists extra,
       Chooser.buttons Example.shown = extra
       /\ length extra = 2
       /\ Chooser.color_buttons_list Example.shown = Some [0; 1].
Proof.
  assert (Hok : (Chooser.updateColors Example.created).2 = Ok tt)
    by reflexivity.
  split; [exact Hok|].
  destruct (updateColors_buttons Example.created Hok)
    as (_ & _ & extra & _ & Hlen & Hbs & Hl & _).
  exists extra. split; [exact Hbs|]. split.
  - rewrite Hlen. reflexivity.
  - unfold Example.shown. rewrite Hl, Hlen. reflexivity.
Defined.

Lemma updateColors_restores_flag_witness :
  Chooser.trigger_no_update Example.created = false
  /\ Chooser.trigger_no_update (Chooser.updateColors Example.created).1 = false.
Proof.
  split; [reflexivity|].
  apply (updateColors_restores_flag Example.created). reflexivity.
Defined.

Lemma colors_changed_shifted_index_witness :
  Chooser.trigger_no_update MoreExamples.commented = false
  /\ Chooser.color_buttons_list MoreExamples.commented = Some [0; 1]
  /\ split_on LF (Chooser.colors_text MoreExamples.commented)
     = MoreExamples.notes ++ "#0000ff" :: []
  /\ Forall (fun s => Chooser.sets_color s = false) MoreExamples.notes
  /\ Chooser.sets_color "#0000ff" = true
  /\ length [0; 1] < length MoreExamples.notes
  /\ exists w',
       Chooser.colors_changed MoreExamples.commented = (w', Raise IndexError)
       /\ Chooser.color_buttons_list w' = Some [0; 1; 2].
Proof.
  assert (H1 : Chooser.trigger_no_update MoreExamples.commented = false)
    by reflexivity.
  assert (H2 : Chooser.color_buttons_list MoreExamples.commented = Some [0; 1])
    by reflexivity.
  assert (H3 : split_on LF (Chooser.colors_text MoreExamples.commented)
               = MoreExamples.notes ++ "#0000ff" :: []) by reflexivity.
  assert (H4 : Forall (fun s => Chooser.sets_color s = false) MoreExamples.notes)
    by (repeat constructor).
  assert (H5 : Chooser.sets_color "#0000ff" = true) by reflexivity.
  assert (H6 : length [0; 1] < length MoreExamples.notes) by (simpl; lia).
  do 6 (split; [assumption|]).
  destruct (colors_changed_shifted_index MoreExamples.commented [0; 1]
              MoreExamples.notes "#0000ff" [] toy_to_hex_raises H1 H2 H3 H4 H5 H6)
    as (w' & Hrun & _ & Hl & _).
  exists w'. split; [exact Hrun|]. exact Hl.
Defined.

Lemma swap_leaves_catalogue_witness :
  let cat := (ColorGraph.addChildren Example.two_lines_state
                Example.two_lines []).1 in
  ColorGraph.color_artists MoreExamples.listed_lines = Some cat
  /\ is_Some (ColorGraph.cat_lookup (ColorGraph.KStr "#ff0000") cat)
  /\ ColorGraph.cat_lookup (ColorGraph.KStr "#0000ff") cat = None
  /\ exists st1,
       ColorGraph.figureSwapColor Example.two_lines "#0000ff"
         (ColorGraph.KStr "#ff0000") MoreExamples.listed_lines
       = (st1, Ok tt)
       /\ ColorGraph.figureSwapColor Example.two_lines "#ff0000"
            (ColorGraph.KStr "#0000ff") st1
          = (st1, Raise KeyError).
Proof.
  cbv zeta.
  set (cat := (ColorGraph.addChildren Example.two_lines_state
                 Example.two_lines []).1).
  assert (H1 : ColorGraph.color_artists MoreExamples.listed_lines = Some cat)
    by reflexivity.
  assert (H2 : is_Some (ColorGraph.cat_lookup (ColorGraph.KStr "#ff0000") cat))
    by (by eexists).
  assert (H3 : ColorGraph.cat_lookup (ColorGraph.KStr "#0000ff") cat = None)
    by reflexivity.
  do 3 (split; [assumption|]).
  destruct (swap_leaves_catalogue Example.two_lines "#0000ff"
              (ColorGraph.KStr "#ff0000") "#ff0000" MoreExamples.listed_lines
              cat H1 H2 H3) as (st1 & Hrun & _ & Hkey).
  by exists st1.
Defined.

